(** * The capture-buffer-flush pipeline of the board-writing screen monitor

    A shallow embedding of [modules/buffer.py] (class [BufferManager]),
    [modules/screenshot.py] (class [ScreenshotManager]) and the capture loop
    of [main.py] (class [MonitorThread]), with the properties the
    specification states about them; and of what surrounds them:
    [modules/logger.py] (class [LogManager]), the list values of
    [modules/config.py], the process history and the save-time list of
    [modules/gui.py], and the handlers of [SmartBoardApp] in [main.py] that
    read the process names, count the captures and choose the next save
    time.

    Conventions.  Python integers are [Z], byte strings are [list byte],
    text is [string], the [set] of seen hashes is a [gset string], the
    [queue.Queue] is its [maxsize] with the list of queued items, oldest
    first.  What the operating system, Qt and the clock answer during one
    call is an explicit environment record; what a call does to the outside
    (locking, logging, signals, directory creation, file writes) is the list
    of events it returns. *)

From Stdlib Require Import ZArith List Lia Bool Ascii String.
From stdpp Require Import base gmap sets list strings sorting.
From Stdlib.Strings Require Byte.
From Stdlib Require QArith.

Import ListNotations.
Local Open Scope string_scope.
Local Open Scope list_scope.
Local Open Scope Z_scope.

(** ** hashlib.md5

    [calculate_image_hash] calls [hashlib.md5(image_data).hexdigest()];
    this is the RFC 1321 function, on bytes given as numbers in 0..255. *)

Module Md5.

Definition wrap32 (x : Z) : Z := x mod 2 ^ 32.

Definition rotl32 (x c : Z) : Z :=
  wrap32 (Z.lor (Z.shiftl x c) (Z.shiftr x (32 - c))).

Definition not32 (x : Z) : Z := Z.lxor x 0xffffffff.

Definition shifts : list Z :=
  [7; 12; 17; 22; 7; 12; 17; 22; 7; 12; 17; 22; 7; 12; 17; 22;
   5; 9; 14; 20; 5; 9; 14; 20; 5; 9; 14; 20; 5; 9; 14; 20;
   4; 11; 16; 23; 4; 11; 16; 23; 4; 11; 16; 23; 4; 11; 16; 23;
   6; 10; 15; 21; 6; 10; 15; 21; 6; 10; 15; 21; 6; 10; 15; 21].

Definition sines : list Z :=
  [0xd76aa478; 0xe8c7b756; 0x242070db; 0xc1bdceee;
   0xf57c0faf; 0x4787c62a; 0xa8304613; 0xfd469501;
   0x698098d8; 0x8b44f7af; 0xffff5bb1; 0x895cd7be;
   0x6b901122; 0xfd987193; 0xa679438e; 0x49b40821;
   0xf61e2562; 0xc040b340; 0x265e5a51; 0xe9b6c7aa;
   0xd62f105d; 0x02441453; 0xd8a1e681; 0xe7d3fbc8;
   0x21e1cde6; 0xc33707d6; 0xf4d50d87; 0x455a14ed;
   0xa9e3e905; 0xfcefa3f8; 0x676f02d9; 0x8d2a4c8a;
   0xfffa3942; 0x8771f681; 0x6d9d6122; 0xfde5380c;
   0xa4beea44; 0x4bdecfa9; 0xf6bb4b60; 0xbebfbc70;
   0x289b7ec6; 0xeaa127fa; 0xd4ef3085; 0x04881d05;
   0xd9d4d039; 0xe6db99e5; 0x1fa27cf8; 0xc4ac5665;
   0xf4292244; 0x432aff97; 0xab9423a7; 0xfc93a039;
   0x655b59c3; 0x8f0ccc92; 0xffeff47d; 0x85845dd1;
   0x6fa87e4f; 0xfe2ce6e0; 0xa3014314; 0x4e0811a1;
   0xf7537e82; 0xbd3af235; 0x2ad7d2bb; 0xeb86d391].

Definition nthZ (l : list Z) (i : Z) : Z := nth (Z.to_nat i) l 0.

(** Little-endian bytes of a number, and back. *)
Fixpoint le_bytes (n : nat) (x : Z) : list Z :=
  match n with
  | O => []
  | S n' => (x mod 256) :: le_bytes n' (x / 256)
  end.

Fixpoint le_value (bs : list Z) : Z :=
  match bs with
  | [] => 0
  | b :: bs' => b + 256 * le_value bs'
  end.

(** The message, a 1 bit, zeros up to 56 modulo 64, the bit length on 64 bits. *)
Definition pad (msg : list Z) : list Z :=
  let len := Z.of_nat (length msg) in
  let zeros := Z.to_nat ((55 - len) mod 64) in
  msg ++ [128] ++ repeat 0 zeros ++ le_bytes 8 ((8 * len) mod 2 ^ 64).

Fixpoint words (n : nat) (bs : list Z) : list Z :=
  match n with
  | O => []
  | S n' => le_value (firstn 4 bs) :: words n' (skipn 4 bs)
  end.

Record regs := Regs { rA : Z; rB : Z; rC : Z; rD : Z }.

Definition round (m : list Z) (r : regs) (i : Z) : regs :=
  let '(Regs a b c d) := r in
  let '(f, g) :=
    if i <? 16 then (Z.lor (Z.land b c) (Z.land (not32 b) d), i)
    else if i <? 32 then (Z.lor (Z.land d b) (Z.land (not32 d) c), (5 * i + 1) mod 16)
    else if i <? 48 then (Z.lxor (Z.lxor b c) d, (3 * i + 5) mod 16)
    else (Z.lxor c (Z.lor b (not32 d)), (7 * i) mod 16) in
  let f' := wrap32 (f + a + nthZ sines i + nthZ m g) in
  Regs d (wrap32 (b + rotl32 f' (nthZ shifts i))) b c.

Definition block (r : regs) (chunk : list Z) : regs :=
  let m := words 16 chunk in
  let r' := fold_left (round m) (map Z.of_nat (seq 0 64)) r in
  Regs (wrap32 (rA r + rA r')) (wrap32 (rB r + rB r'))
       (wrap32 (rC r + rC r')) (wrap32 (rD r + rD r')).

Fixpoint blocks (n : nat) (r : regs) (bs : list Z) : regs :=
  match n with
  | O => r
  | S n' => blocks n' (block r (firstn 64 bs)) (skipn 64 bs)
  end.

Definition digest (msg : list Z) : list Z :=
  let p := pad msg in
  let r := blocks (length p / 64) (Regs 0x67452301 0xefcdab89 0x98badcfe 0x10325476) p in
  le_bytes 4 (rA r) ++ le_bytes 4 (rB r) ++ le_bytes 4 (rC r) ++ le_bytes 4 (rD r).

Definition hex_digit (x : Z) : ascii :=
  nth (Z.to_nat x)
      (list_ascii_of_string "0123456789abcdef") "0"%char.

Fixpoint hex (bs : list Z) : string :=
  match bs with
  | [] => EmptyString
  | b :: bs' => String (hex_digit (b / 16)) (String (hex_digit (b mod 16)) (hex bs'))
  end.

Definition of_bytes (bs : list Byte.byte) : list Z :=
  map (fun b => Z.of_N (Byte.to_N b)) bs.

Definition hexdigest (data : list Byte.byte) : string := hex (digest (of_bytes data)).

End Md5.

(** ** Exceptions, events and the environment of one call *)

(** The exception classes the code tells apart: [except PermissionError]
    against [except Exception].  [BaseException]s that are not [Exception]s
    (interpreter exit) are outside the model. *)
Inductive exn := PermissionError | OSError | TypeError.

Global Instance exn_eq_dec : EqDecision exn.
Proof. solve_decision. Defined.

(** What [add_to_buffer] is handed: a bytes-like object, or an object
    without the buffer protocol (such as [None]), on which [hashlib.md5]
    raises [TypeError]. *)
Inductive image_data := Bytes (b : list Byte.byte) | NotBytes.

Inductive level := INFO | ERROR.

Inductive message :=
| MsgDuplicateSkipped
| MsgAddedToBuffer (count max : Z)
| MsgSavedFile (name : string)
| MsgSaveFailed (e : exn)
| MsgSavedTotal (saved_count : Z)
| MsgHashFailed (e : exn)
| MsgScreenCaptureFailed (e : exn)
| MsgWindowCaptureFailed (e : exn)
| MsgProcessCheckFailed (e : exn)
| MsgThreadStarted
| MsgCaptured
| MsgThreadError (e : exn)
| MsgThreadStopped.

(** A grabbed pixmap: the whole first screen, or the rectangle passed to
    [grabWindow]. *)
Inductive pixmap := WholeScreen | Region (x y width height : Z).

Inductive field := FMaxSize | FRamBuffer | FBufferCount | FImageHashes.

Inductive event :=
| Acquire                                  (* entering [with self.lock] *)
| Release                                  (* leaving it *)
| Write (f : field)                        (* a write to [self.f] or to the object it holds *)
| Makedirs (path : string)                 (* os.makedirs(path, exist_ok=True) *)
| LoadFromData (d : image_data)            (* QPixmap.loadFromData *)
| PixmapSave (path : string)               (* QPixmap.save(path, "PNG") *)
| AddLog (l : level) (m : message)         (* log_manager.add_log *)
| Print (m : message)
| BufferFullSignal                         (* buffer_full_signal.emit() *)
| BufferUpdated (count max : Z)            (* buffer_updated.emit(count, max) *)
| CaptureSignal (p : pixmap)               (* capture_signal.emit(pixmap) *)
| LogSignal (l : level) (m : message)      (* log_signal.emit(level, text) *)
| StatusSignal (l : level) (m : message)   (* status_signal.emit(kind, text) *)
| Msleep (ms : Z).                         (* QThread.msleep *)

Inductive load_result := Loaded | Null | LoadRaises (e : exn).
Inductive save_result := SaveReturns (ok : bool) | SaveRaises (e : exn).

(** The answers of the clock, [os], [os.path] and Qt during one call. *)
Record env := Env {
  time_time : Z;
  get_date_folder_name : string;   (* ScreenshotManager.get_date_folder_name() *)
  timestamp_date_folder : string;  (* the same format computed from [timestamp] *)
  timestamp_file_name : string;    (* strftime("%Y-%m-%d-%H-%M-%S.png") of [timestamp] *)
  expanduser_home : string;        (* os.path.expanduser("~") *)
  join : string → string → string; (* os.path.join *)
  dirname : string → string;
  basename : string → string;
  makedirs : string → option exn;  (* [None]: the directory exists afterwards *)
  load_from_data : image_data → load_result;
  pixmap_save : string → save_result
}.

(** ** Calls that log and may raise *)

Definition io (A : Type) : Type := list event * (exn + A).

Definition ret {A} (a : A) : io A := ([], inr a).
Definition raise {A} (e : exn) : io A := ([], inl e).
Definition emit (ev : event) : io unit := ([ev], inr ()).

Definition bind {A B} (m : io A) (k : A → io B) : io B :=
  match m with
  | (t, inl e) => (t, inl e)
  | (t, inr a) => let '(t', r) := k a in (t ++ t', r)
  end.

(** [try: m  except <class>: h], where [catches] tells the class. *)
Definition try_except {A} (m : io A) (catches : exn → bool) (h : exn → io A) : io A :=
  match m with
  | (t, inl e) => if catches e then let '(t', r) := h e in (t ++ t', r) else (t, inl e)
  | (t, inr a) => (t, inr a)
  end.

Notation "'let!' x ':=' m 'in' k" := (bind m (fun x => k))
  (at level 10, x pattern, m at level 100, k at level 200).
Notation "m '>>' k" := (bind m (fun _ => k)) (at level 90, right associativity).

Definition lift {A} (r : exn + A) : io A := ([], r).

Definition is_PermissionError (e : exn) : bool := bool_decide (e = PermissionError).
Definition is_Exception (e : exn) : bool := true.

Definition os_makedirs (w : env) (path : string) : io unit :=
  emit (Makedirs path) >>
  match makedirs w path with Some e => raise e | None => ret () end.

Definition QPixmap_loadFromData (w : env) (d : image_data) : io bool :=
  emit (LoadFromData d) >>
  match load_from_data w d with
  | Loaded => ret false
  | Null => ret true
  | LoadRaises e => raise e
  end.

Definition QPixmap_save (w : env) (path : string) : io bool :=
  emit (PixmapSave path) >>
  match pixmap_save w path with
  | SaveReturns ok => ret ok
  | SaveRaises e => raise e
  end.

(** [if self.log_manager: self.log_manager.add_log(level, msg)] *)
Definition add_log (log_manager : bool) (l : level) (m : message) : io unit :=
  if log_manager then emit (AddLog l m) else ret ().

(** os.path.join(os.path.expanduser("~"), "Documents", "SmartBoardScreenshots", date_str) *)
Definition user_docs_dir (w : env) (date_str : string) : string :=
  join w (join w (join w (expanduser_home w) "Documents") "SmartBoardScreenshots") date_str.

(** ** queue.Queue *)

(** The dictionary [add_to_buffer] puts into the queue. *)
Record item := Item {
  data : image_data;
  timestamp : Z;
  filepath : string;
  date_str : string;
  filename : string;
  hash : option string
}.

Record Queue := MkQueue { maxsize : Z; queue : list item }.

Definition qsize (q : Queue) : Z := Z.of_nat (length (queue q)).
Definition empty (q : Queue) : bool := qsize q =? 0.

(** [Queue.full]: [0 < self.maxsize <= self._qsize()]; a queue built with
    [maxsize <= 0] is unbounded and never full. *)
Definition full (q : Queue) : bool := (0 <? maxsize q) && (maxsize q <=? qsize q).

(** [Queue.put] with its default [block=True]: on a full queue the caller
    waits for a slot, which is [None] here. *)
Definition put (q : Queue) (x : item) : option Queue :=
  if full q then None else Some (MkQueue (maxsize q) (queue q ++ [x])).

(** [for item in items: q.put(item)]: the queue reached, and whether every
    [put] went through. *)
Fixpoint put_all (q : Queue) (items : list item) : Queue * bool :=
  match items with
  | [] => (q, true)
  | x :: rest => match put q x with Some q' => put_all q' rest | None => (q, false) end
  end.

(** The slice [l[:n]] of Python: a negative [n] counts from the end. *)
Definition slice_to {A} (l : list A) (n : Z) : list A :=
  if 0 <=? n then take (Z.to_nat n) l
  else take (Z.to_nat (Z.of_nat (length l) + n)) l.

(** ** BufferManager *)

Record BufferManager := MkBufferManager {
  max_size : Z;
  ram_buffer : Queue;
  save_path : string;
  log_manager : bool;          (* whether a log manager was given *)
  buffer_count : Z;
  image_hashes : gset string
}.

(** The fields [__init__] sets; [ensure_save_directory] may already have
    replaced [save_path] by the Documents directory. *)
Definition new_BufferManager (log_manager : bool) (save_path : string) : BufferManager :=
  MkBufferManager 100 (MkQueue 100 []) save_path log_manager 0 ∅.

Definition set_ram_buffer (q : Queue) (self : BufferManager) : BufferManager :=
  MkBufferManager (max_size self) q (save_path self) (log_manager self)
                  (buffer_count self) (image_hashes self).

Definition set_max_size (n : Z) (self : BufferManager) : BufferManager :=
  MkBufferManager n (ram_buffer self) (save_path self) (log_manager self)
                  (buffer_count self) (image_hashes self).

Definition set_buffer_count (n : Z) (self : BufferManager) : BufferManager :=
  MkBufferManager (max_size self) (ram_buffer self) (save_path self) (log_manager self)
                  n (image_hashes self).

Definition set_image_hashes (h : gset string) (self : BufferManager) : BufferManager :=
  MkBufferManager (max_size self) (ram_buffer self) (save_path self) (log_manager self)
                  (buffer_count self) h.

(** How a method call ends: it returns, an exception leaves it, or it waits
    forever inside [Queue.put]. *)
Inductive outcome := Returned | Raised (e : exn) | Blocked.

(** *** calculate_image_hash *)

Definition calculate_image_hash (image_data : image_data) : list event * option string :=
  match image_data with
  | Bytes b => ([], Some (Md5.hexdigest b))
  | NotBytes => ([Print (MsgHashFailed TypeError)], None)
  end.

(** Truth value of [image_hash]: [None] and the empty string are false. *)
Definition truthy (image_hash : option string) : bool :=
  match image_hash with
  | Some s => negb (String.eqb s "")
  | None => false
  end.

(** [image_hash in self.image_hashes] *)
Definition hash_in (image_hash : option string) (hashes : gset string) : bool :=
  match image_hash with
  | Some s => bool_decide (s ∈ hashes)
  | None => false
  end.

Definition hash_add (image_hash : option string) (hashes : gset string) : gset string :=
  match image_hash with
  | Some s => {[s]} ∪ hashes
  | None => hashes
  end.

(** *** set_buffer_size *)

Definition set_buffer_size (size : Z) (self : BufferManager)
  : BufferManager * list event * outcome :=
  let self1 := set_max_size size self in
  let old_buffer := queue (ram_buffer self1) in
  let '(q, all_put) := put_all (MkQueue size []) (slice_to old_buffer size) in
  let t := [Acquire; Write FMaxSize; Write FRamBuffer]
           ++ repeat (Write FRamBuffer) (length (queue q)) in
  if all_put then (set_ram_buffer q self1, t ++ [Release], Returned)
  else (set_ram_buffer q self1, t, Blocked).

(** *** _save_worker *)

(** The body of the [while] loop for one item already taken from the queue:
    the directory, the pixmap, the write, under [except Exception].  The
    result is what the round adds to [saved_count]. *)
Definition save_one (w : env) (log_manager : bool) (item : item) : io Z :=
  try_except
    (let date_str := date_str item in
     let! filepath :=
       try_except
         (os_makedirs w (dirname w (filepath item)) >> ret (filepath item))
         is_PermissionError
         (fun _ =>
            let user_docs := user_docs_dir w date_str in
            os_makedirs w user_docs >>
            ret (join w user_docs (basename w (filepath item)))) in
     let! is_null := QPixmap_loadFromData w (data item) in
     if negb is_null then
       let! filepath :=
         try_except
           (QPixmap_save w filepath >> ret filepath)
           is_Exception
           (fun _ =>
              let user_docs := user_docs_dir w date_str in
              let backup_path := join w user_docs (basename w filepath) in
              os_makedirs w user_docs >>
              QPixmap_save w backup_path >>
              ret backup_path) in
       add_log log_manager INFO (MsgSavedFile (basename w filepath)) >>
       ret 1
     else ret 0)
    is_Exception
    (fun e =>
       emit (Print (MsgSaveFailed e)) >>
       add_log log_manager ERROR (MsgSaveFailed e) >>
       ret 0).

(** [while not self.ram_buffer.empty(): item = self.ram_buffer.get(); ...]:
    every round takes the oldest item out of the queue, so the loop is a
    traversal of the queued items; it ends with the queue empty. *)
Fixpoint save_loop (w : env) (log_manager : bool) (items : list item) (saved_count : Z)
  : list event * Z :=
  match items with
  | [] => ([], saved_count)
  | item :: rest =>
      let '(t, r) := save_one w log_manager item in
      let saved_count' := match r with inr n => saved_count + n | inl _ => saved_count end in
      let '(t', n) := save_loop w log_manager rest saved_count' in
      (Write FRamBuffer :: t ++ t', n)
  end.

Definition _save_worker (w : env) (self : BufferManager) : BufferManager * list event :=
  if empty (ram_buffer self) then (self, [])
  else
    let '(t, saved_count) := save_loop w (log_manager self) (queue (ram_buffer self)) 0 in
    let self1 := set_ram_buffer (MkQueue (maxsize (ram_buffer self)) []) self in
    let self2 := set_buffer_count (qsize (ram_buffer self1)) self1 in
    let self3 := set_image_hashes ∅ self2 in
    (self3,
     t ++ [Write FBufferCount; BufferUpdated (buffer_count self2) (max_size self2);
           Write FImageHashes]
       ++ (if 0 <? saved_count
           then fst (add_log (log_manager self) INFO (MsgSavedTotal saved_count))
           else [])).

(** *** add_to_buffer *)

(** Lines 113-120: the date directory under [save_path], or under the
    Documents directory when creating it is not permitted. *)
Definition date_dir_for (w : env) (save_path date_str : string) : io string :=
  let date_dir := join w save_path date_str in
  try_except
    (os_makedirs w date_dir >> ret date_dir)
    is_PermissionError
    (fun _ =>
       let user_docs := user_docs_dir w date_str in
       os_makedirs w user_docs >> ret user_docs).

Definition add_to_buffer (w : env) (image_data : image_data) (screenshot_manager : bool)
    (self : BufferManager) : BufferManager * list event * outcome :=
  let '(t_hash, image_hash) := calculate_image_hash image_data in
  if truthy image_hash && hash_in image_hash (image_hashes self) then
    (self,
     [Acquire] ++ t_hash
       ++ fst (add_log (log_manager self) INFO MsgDuplicateSkipped) ++ [Release],
     Returned)
  else
    let '(self1, t_add) :=
      if truthy image_hash
      then (set_image_hashes (hash_add image_hash (image_hashes self)) self,
            [Write FImageHashes])
      else (self, []) in
    let '(self2, t_full) :=
      if full (ram_buffer self1)
      then let '(s, t) := _save_worker w self1 in (s, BufferFullSignal :: t)
      else (self1, []) in
    let timestamp := time_time w in
    let date_str :=
      if screenshot_manager then get_date_folder_name w else timestamp_date_folder w in
    let '(t_dir, r) := date_dir_for w (save_path self2) date_str in
    let t := [Acquire] ++ t_hash ++ t_add ++ t_full ++ t_dir in
    match r with
    | inl e => (self2, t ++ [Release], Raised e)
    | inr date_dir =>
        let filename := timestamp_file_name w in
        let filepath := join w date_dir filename in
        match put (ram_buffer self2)
                  (Item image_data timestamp filepath date_str filename image_hash) with
        | None => (self2, t, Blocked)
        | Some q =>
            let self3 := set_buffer_count (qsize q) (set_ram_buffer q self2) in
            (self3,
             t ++ [Write FRamBuffer; Write FBufferCount;
                   BufferUpdated (buffer_count self3) (max_size self3)]
               ++ fst (add_log (log_manager self3) INFO
                         (MsgAddedToBuffer (buffer_count self3) (max_size self3)))
               ++ [Release],
             Returned)
        end
    end.

(** *** The callers of [_save_worker] outside [add_to_buffer] *)

(** One round of [_auto_save_worker], the periodic thread:
    [self._save_worker()], then the wait. *)
Definition _auto_save_round (w : env) (self : BufferManager) : BufferManager * list event :=
  _save_worker w self.

(** [SmartBoardApp.check_save_times] at a scheduled minute, while monitoring:
    [self.buffer_manager._save_worker()]. *)
Definition check_save_times (w : env) (self : BufferManager) : BufferManager * list event :=
  _save_worker w self.

(** ** ScreenshotManager *)

(** [str.lower], [str.strip], [str.endswith] and [in] on ASCII text. *)
Definition lower_char (c : ascii) : ascii :=
  let n := N_of_ascii c in
  if ((65 <=? n) && (n <=? 90))%N then ascii_of_N (n + 32) else c.

Fixpoint lower (s : string) : string :=
  match s with
  | EmptyString => EmptyString
  | String c rest => String (lower_char c) (lower rest)
  end.

Definition isspace (c : ascii) : bool :=
  let n := N_of_ascii c in
  (((9 <=? n) && (n <=? 13)) || ((28 <=? n) && (n <=? 32)))%N.

Fixpoint lstrip (s : string) : string :=
  match s with
  | EmptyString => EmptyString
  | String c rest => if isspace c then lstrip rest else s
  end.

Definition strip (s : string) : string :=
  String.rev (lstrip (String.rev (lstrip s))).

Definition endswith (s suffix : string) : bool :=
  String.prefix (String.rev suffix) (String.rev s).

(** [needle in hay] *)
Fixpoint contains (needle hay : string) : bool :=
  String.prefix needle hay ||
  match hay with
  | EmptyString => false
  | String _ rest => contains needle rest
  end.

(** What Windows, psutil and Qt answer during one capture. *)
Record desktop := Desktop {
  GetForegroundWindow : exn + Z;
  GetWindowThreadProcessId : Z → exn + Z;
  Process_name : Z → exn + string;            (* psutil.Process(pid).name() *)
  GetWindowRect : Z → exn + (Z * Z * Z * Z);
  grabWindow : pixmap → exn + pixmap          (* self.screens[0].grabWindow(0, ...) *)
}.

(** The loop body of [_is_target_process] for one entry. *)
Definition target_name_of (entry : string) : string :=
  let target_name := lower (strip entry) in
  if endswith target_name ".exe" then target_name else (target_name ++ ".exe")%string.

Definition _is_target_process (os : desktop) (hwnd : Z) (process_names : list string)
  : io bool :=
  try_except
    (let! pid := lift (GetWindowThreadProcessId os hwnd) in
     let! name := lift (Process_name os pid) in
     let process_name := lower name in
     ret (existsb (fun entry => contains (target_name_of entry) process_name)
                  process_names))
    is_Exception
    (fun e => emit (Print (MsgProcessCheckFailed e)) >> ret false).

Definition nonempty {A} (l : list A) : bool :=
  match l with [] => false | _ => true end.

Definition capture_foreground_window (os : desktop) (process_names : list string)
  : io (option pixmap) :=
  try_except
    (let! hwnd := lift (GetForegroundWindow os) in
     let! is_target :=
       if nonempty process_names
       then _is_target_process os hwnd process_names
       else ret true in
     if negb is_target then ret None
     else
       let! rect := lift (GetWindowRect os hwnd) in
       let '(x, y, width, height) := rect in
       let! pixmap := lift (grabWindow os (Region x y width height)) in
       ret (Some pixmap))
    is_Exception
    (fun e => emit (Print (MsgWindowCaptureFailed e)) >> ret None).

Definition capture_screen (os : desktop) : io (option pixmap) :=
  try_except
    (let! pixmap := lift (grabWindow os WholeScreen) in ret (Some pixmap))
    is_Exception
    (fun e => emit (Print (MsgScreenCaptureFailed e)) >> ret None).

(** The matching rule as the specification words it: the executable name
    equals an entry, letter case aside, an ".exe" suffix being optional on
    either side. *)
Definition with_exe (s : string) : string :=
  if endswith s ".exe" then s else (s ++ ".exe")%string.

Definition spec_matches (process_name entry : string) : bool :=
  String.eqb (with_exe (lower process_name)) (with_exe (lower (strip entry))).

(** The rule of the specification, as a property of one capture: an image
    comes back only when the name of the foreground process equals an
    entry in the sense of [spec_matches]. *)
Definition captures_equal_names_only (os : desktop) (process_names : list string) : Prop :=
  ∀ px hwnd pid name,
    GetForegroundWindow os = inr hwnd →
    GetWindowThreadProcessId os hwnd = inr pid →
    Process_name os pid = inr name →
    snd (capture_foreground_window os process_names) = inr (Some px) →
    ∃ entry, entry ∈ process_names ∧ spec_matches name entry = true.

(** ** MonitorThread *)

Module MonitorThread.

(** The statements of one round of [run] that may raise. *)
Inductive point :=
| AtIdleSleep | AtCapture | AtCaptureSignal | AtLogSignal | AtRange | AtSleep (i : nat).

(** What one round of the [while] loop reads and meets. *)
Record tick := Tick {
  stop_flag_at_while : bool;       (* [self.stop_flag] in the loop test *)
  capture_enabled : bool;
  screenshot_manager : bool;       (* [self.screenshot_manager] is set *)
  foreground_detection : bool;
  process_names : list string;
  os : desktop;
  fault : point → option exn;      (* the exception a statement raises, if any *)
  stop_flag_after_capture : bool;
  sleeps : Z;                      (* int(self.interval * 10) *)
  stop_flag_in_wait : nat → bool   (* [self.stop_flag] before the i-th sleep *)
}.

Inductive flow := Continue | Break.

Definition at_point (tk : tick) (p : point) : io unit :=
  match fault tk p with Some e => raise e | None => ret () end.

(** [for i in range(n): if self.stop_flag: break; self.msleep(100)] *)
Fixpoint wait (tk : tick) (n i : nat) : io unit :=
  match n with
  | O => ret ()
  | S n' =>
      if stop_flag_in_wait tk i then ret ()
      else at_point tk (AtSleep i) >> emit (Msleep 100) >> wait tk n' (S i)
  end.

(** The [try] block of one round. *)
Definition tick_body (tk : tick) : io flow :=
  if negb (capture_enabled tk) then
    at_point tk AtIdleSleep >> emit (Msleep 100) >> ret Continue
  else
    let! pixmap :=
      if screenshot_manager tk then
        at_point tk AtCapture >>
        (if foreground_detection tk && nonempty (process_names tk)
         then capture_foreground_window (os tk) (process_names tk)
         else capture_screen (os tk))
      else ret None in
    match pixmap with
    | Some p =>
        at_point tk AtCaptureSignal >> emit (CaptureSignal p) >>
        at_point tk AtLogSignal >> emit (LogSignal INFO MsgCaptured)
    | None => ret ()
    end >>
    if stop_flag_after_capture tk then ret Break
    else at_point tk AtRange >> wait tk (Z.to_nat (sleeps tk)) 0 >> ret Continue.

(** The [except Exception as e] block. *)
Definition on_error (e : exn) : list event :=
  [LogSignal ERROR (MsgThreadError e); StatusSignal ERROR (MsgThreadError e); Msleep 1000].

(** The statements after the loop. *)
Definition epilogue : list event :=
  [LogSignal INFO MsgThreadStopped; StatusSignal INFO MsgThreadStopped].

(** [Stopped]: the loop was left; [Running]: it is still going round when
    the given rounds are over. *)
Inductive thread_state := Running | Stopped.

Fixpoint loop (ticks : list tick) : list event * thread_state :=
  match ticks with
  | [] => ([], Running)
  | tk :: rest =>
      if stop_flag_at_while tk then (epilogue, Stopped)
      else
        match tick_body tk with
        | (t, inr Break) => (t ++ epilogue, Stopped)
        | (t, inr Continue) => let '(t', s) := loop rest in (t ++ t', s)
        | (t, inl e) => let '(t', s) := loop rest in (t ++ on_error e ++ t', s)
        end
  end.

Definition run (ticks : list tick) : list event * thread_state :=
  let '(t, s) := loop ticks in
  ([LogSignal INFO MsgThreadStarted; StatusSignal INFO MsgThreadStarted] ++ t, s).

(** The number of rounds begun. *)
Fixpoint rounds (ticks : list tick) : nat :=
  match ticks with
  | [] => O
  | tk :: rest =>
      if stop_flag_at_while tk then O
      else
        match snd (tick_body tk) with
        | inr Break => 1
        | _ => S (rounds rest)
        end
  end.

(** No round of the sequence sees the stop flag set. *)
Definition never_stopped (tk : tick) : Prop :=
  stop_flag_at_while tk = false ∧ stop_flag_after_capture tk = false.

End MonitorThread.

(** ** The lock *)

(** Every [Write] of a trace happens between an [Acquire] and the next
    [Release]; [held] tells whether the lock is held at the start. *)
Fixpoint lock_respected (held : bool) (t : list event) : bool :=
  match t with
  | [] => true
  | Acquire :: rest => lock_respected true rest
  | Release :: rest => lock_respected false rest
  | Write _ :: rest => held && lock_respected held rest
  | _ :: rest => lock_respected held rest
  end.

(** A trace that neither takes nor gives back the lock. *)
Definition is_lock_event (e : event) : bool :=
  match e with Acquire | Release => true | _ => false end.

Definition lock_free (t : list event) : bool := forallb (fun e => negb (is_lock_event e)) t.

Definition has_write (t : list event) : bool :=
  existsb (fun e => match e with Write _ => true | _ => false end) t.

(** *** The stages of [add_to_buffer] and of the save loop, named *)

(** The manager after lines 90-92 (the hash is recorded) and after lines
    94-98 (a full queue is saved). *)
Definition with_hash (image_data : image_data) (self : BufferManager) : BufferManager :=
  let image_hash := snd (calculate_image_hash image_data) in
  if truthy image_hash
  then set_image_hashes (hash_add image_hash (image_hashes self)) self
  else self.

Definition with_room (w : env) (self : BufferManager) : BufferManager :=
  if full (ram_buffer self) then fst (_save_worker w self) else self.

Definition is_duplicate (image_data : image_data) (self : BufferManager) : bool :=
  let image_hash := snd (calculate_image_hash image_data) in
  truthy image_hash && hash_in image_hash (image_hashes self).

Definition date_str_of (w : env) (screenshot_manager : bool) : string :=
  if screenshot_manager then get_date_folder_name w else timestamp_date_folder w.

Definition new_item (w : env) (image_data : image_data) (screenshot_manager : bool)
    (date_dir : string) : item :=
  Item image_data (time_time w) (join w date_dir (timestamp_file_name w))
       (date_str_of w screenshot_manager) (timestamp_file_name w)
       (snd (calculate_image_hash image_data)).

(** The calls to the file system in a trace. *)
Definition is_fs_call (e : event) : bool :=
  match e with Makedirs _ | PixmapSave _ => true | _ => false end.

Definition fs_calls (t : list event) : list event := List.filter is_fs_call t.

Definition is_write (e : event) : bool :=
  match e with PixmapSave _ => true | _ => false end.

Definition is_error_log (e : event) : bool :=
  match e with AddLog ERROR _ => true | _ => false end.

(** Where the round of an item writes, when its directory stage (lines
    181-189) ends without an exception: the item's own path, or the same
    file name under the Documents directory. *)
Definition write_path (w : env) (it : item) : option string :=
  match makedirs w (dirname w (filepath it)) with
  | None => Some (filepath it)
  | Some PermissionError =>
      match makedirs w (user_docs_dir w (date_str it)) with
      | None => Some (join w (user_docs_dir w (date_str it)) (basename w (filepath it)))
      | Some _ => None
      end
  | Some _ => None
  end.

(** The events of the directory stage. *)
Definition dir_calls (w : env) (it : item) : list event :=
  match makedirs w (dirname w (filepath it)) with
  | Some PermissionError =>
      [Makedirs (dirname w (filepath it)); Makedirs (user_docs_dir w (date_str it))]
  | _ => [Makedirs (dirname w (filepath it))]
  end.

(** The events of one round of the save loop. *)
Definition round_events (w : env) (lg : bool) (it : item) : list event :=
  Write FRamBuffer :: fst (save_one w lg it).

(** What the [except Exception] block of the loop does with [e]. *)
Definition drop_with_error (lg : bool) (e : exn) : list event :=
  Print (MsgSaveFailed e) :: fst (add_log lg ERROR (MsgSaveFailed e)).

(** What one round adds to [saved_count]. *)
Definition saved_by (w : env) (lg : bool) (it : item) : Z :=
  match snd (save_one w lg it) with inr n => n | inl _ => 0 end.

(** ** Sequences of calls *)

Inductive op :=
| Add (w : env) (image_data : image_data) (screenshot_manager : bool)
| DrainAll (w : env)
| Resize (size : Z).

Definition step (self : BufferManager) (o : op) : BufferManager :=
  match o with
  | Add w d sm => fst (fst (add_to_buffer w d sm self))
  | DrainAll w => fst (_save_worker w self)
  | Resize size => fst (fst (set_buffer_size size self))
  end.

Definition run (self : BufferManager) (ops : list op) : BufferManager :=
  fold_left step ops self.

(** Whether a call clears [image_hashes], that is, reaches the end of
    [_save_worker]: a drain of a non-empty queue, or an [Add] of a new image
    on a full queue. *)
Definition flushes (self : BufferManager) (o : op) : bool :=
  match o with
  | Add w d sm => negb (is_duplicate d self) && full (ram_buffer (with_hash d self))
  | DrainAll w => negb (empty (ram_buffer self))
  | Resize _ => false
  end.

(** No call of the sequence flushes. *)
Fixpoint unflushed (self : BufferManager) (ops : list op) : bool :=
  match ops with
  | [] => true
  | o :: rest => negb (flushes self o) && unflushed (step self o) rest
  end.

(** The two records of the capacity agree, the capacity is positive, and
    the queue holds no more than it. *)
Definition capacity_ok (self : BufferManager) : Prop :=
  0 < max_size self ∧
  maxsize (ram_buffer self) = max_size self ∧
  qsize (ram_buffer self) <= max_size self.

(** The sizes [set_buffer_size] is called with are positive (the settings
    dialog offers 10 to 1000). *)
Definition positive_resize (o : op) : Prop :=
  match o with Resize size => 0 < size | _ => True end.

(** The hashes of the items the queue holds. *)
Definition held_hashes (self : BufferManager) : gset string :=
  list_to_set (omap hash (queue (ram_buffer self))).

(** ** An environment for examples

    Every directory can be created, every image decodes and every write
    succeeds; paths are joined with a backslash. *)
Module Example_env.

Definition sep : ascii := "\"%char.

Definition join (a b : string) : string := (a ++ String sep b)%string.

(** The text after the last separator, and the text before it. *)
Fixpoint basename_from (cur p : string) : string :=
  match p with
  | EmptyString => cur
  | String c rest =>
      if Ascii.eqb c sep then basename_from EmptyString rest
      else basename_from (cur ++ String c EmptyString)%string rest
  end.

Definition basename (p : string) : string := basename_from EmptyString p.

Fixpoint dirname_from (dir : option string) (cur p : string) : string :=
  match p with
  | EmptyString => default EmptyString dir
  | String c rest =>
      if Ascii.eqb c sep
      then dirname_from (Some (match dir with
                               | None => cur
                               | Some d => (d ++ String sep cur)%string
                               end)) EmptyString rest
      else dirname_from dir (cur ++ String c EmptyString)%string rest
  end.

Definition dirname (p : string) : string := dirname_from None EmptyString p.

Definition calm : env :=
  Env 1700000000 "2023-11-14_Tue" "2023-11-14_Tue" "2023-11-14-22-13-20.png"
      "C:\Users\teacher" join dirname basename
      (fun _ => None) (fun _ => Loaded) (fun _ => SaveReturns true).

(** The same, but the disk refuses every directory outside the home. *)
Definition locked_save_path : env :=
  Env 1700000000 "2023-11-14_Tue" "2023-11-14_Tue" "2023-11-14-22-13-20.png"
      "C:\Users\teacher" join dirname basename
      (fun p => if String.prefix "C:\Users\teacher" p then None else Some PermissionError)
      (fun _ => Loaded) (fun _ => SaveReturns true).

(** The disk lets directories be made, but refuses with an exception every
    write outside the home. *)
Definition write_protected : env :=
  Env 1700000000 "2023-11-14_Tue" "2023-11-14_Tue" "2023-11-14-22-13-20.png"
      "C:\Users\teacher" join dirname basename
      (fun _ => None) (fun _ => Loaded)
      (fun p => if String.prefix "C:\Users\teacher" p then SaveReturns true
                else SaveRaises PermissionError).

(** Nothing decodes. *)
Definition undecodable : env :=
  Env 1700000000 "2023-11-14_Tue" "2023-11-14_Tue" "2023-11-14-22-13-20.png"
      "C:\Users\teacher" join dirname basename
      (fun _ => None) (fun _ => Null) (fun _ => SaveReturns true).

(** An item queued under the configured save path. *)
Definition queued (s : string) : item :=
  Item (Bytes (list_byte_of_string s)) 1700000000
       "D:\board\2023-11-14_Tue\2023-11-14-22-13-20.png"
       "2023-11-14_Tue" "2023-11-14-22-13-20.png"
       (Some (Md5.hexdigest (list_byte_of_string s))).

(** A desktop whose foreground window belongs to the given process. *)
Definition foreground (process : string) : desktop :=
  Desktop (inr 1001) (fun _ => inr 4242) (fun _ => inr process)
          (fun _ => inr (0, 0, 1920, 1080)) (fun p => inr p).

(** A round of the capture thread in which the capture call raises, and
    a round that captures the whole screen and waits one second. *)
Definition failing_tick : MonitorThread.tick :=
  MonitorThread.Tick false true true false [] (foreground "explorer.exe")
    (fun p => match p with MonitorThread.AtCapture => Some OSError | _ => None end)
    false 10 (fun _ => false).

Definition quiet_tick : MonitorThread.tick :=
  MonitorThread.Tick false true true false [] (foreground "explorer.exe")
    (fun _ => None) false 10 (fun _ => false).

Definition image (s : string) : image_data := Bytes (list_byte_of_string s).

(** Eleven captures with different content. *)
Definition eleven : list string :=
  ["01"; "02"; "03"; "04"; "05"; "06"; "07"; "08"; "09"; "10"; "11"].

Definition captures (names : list string) : list op :=
  map (fun s => Add calm (image s) true) names.

End Example_env.

(** Disks that refuse: for the failures of a flush. *)
Module Example_disk.

(** The disk lets directories be made and refuses every write outside the
    home the way Qt reports it: [save] returns [False]. *)
Definition write_refused : env :=
  Env 1700000000 "2023-11-14_Tue" "2023-11-14_Tue" "2023-11-14-22-13-20.png"
      "C:\Users\teacher" Example_env.join Example_env.dirname Example_env.basename
      (fun _ => None) (fun _ => Loaded)
      (fun p => SaveReturns (String.prefix "C:\Users\teacher" p)).

(** No directory can be made outside the home, and every write raises. *)
Definition nothing_writable : env :=
  Env 1700000000 "2023-11-14_Tue" "2023-11-14_Tue" "2023-11-14-22-13-20.png"
      "C:\Users\teacher" Example_env.join Example_env.dirname Example_env.basename
      (fun p => if String.prefix "C:\Users\teacher" p then None else Some PermissionError)
      (fun _ => Loaded) (fun _ => SaveRaises PermissionError).

End Example_disk.

(** ** More of the buffer manager *)

(** Every queued item carries the hash [calculate_image_hash] gives for its
    own data. *)
Definition hash_consistent (self : BufferManager) : Prop :=
  Forall (fun it => hash it = snd (calculate_image_hash (data it)))
         (queue (ram_buffer self)).

(** [buffer_count] is the number of queued items. *)
Definition count_consistent (self : BufferManager) : Prop :=
  buffer_count self = qsize (ram_buffer self).

(** [get_buffer_info]: the count, the capacity and the estimate
    [buffer_count * 0.5], which is exact, as a fraction. *)
Definition get_buffer_info (self : BufferManager)
  : (Z * Z * QArith_base.Q) * list event :=
  ((buffer_count self, max_size self, QArith_base.Qmake (buffer_count self) 2),
   [Acquire; Release]).

Definition is_resize (o : op) : bool :=
  match o with Resize _ => true | _ => false end.

(** The Adds of a list of captures, each with its environment. *)
Definition adds (captures : list (env * list Byte.byte * bool)) : list op :=
  map (fun '(w, b, sm) => Add w (Bytes b) sm) captures.

(** The digest of a capture. *)
Definition digest_of (capture : env * list Byte.byte * bool) : string :=
  Md5.hexdigest (snd (fst capture)).

(** The date directory of a capture can be made under [save_path]. *)
Definition dir_ready (save_path : string) (capture : env * list Byte.byte * bool) : Prop :=
  let '(w, _, sm) := capture in
  makedirs w (join w save_path (date_str_of w sm)) = None.

(** The item [add_to_buffer] queues for a capture under [save_path]. *)
Definition item_of (save_path : string) (capture : env * list Byte.byte * bool) : item :=
  let '(w, b, sm) := capture in
  new_item w (Bytes b) sm (join w save_path (date_str_of w sm)).

(** *** ensure_save_directory and set_save_path *)

(** What the disk answers to the write test: [open(test_file, 'w')] with
    the write, and [os.remove(test_file)]. *)
Record probe := Probe {
  open_write : string → option exn;
  os_remove : string → option exn
}.

Inductive dir_message :=
| DirReady (path : string)
| DirSwitched (path : string)
| DirFailed (e : exn)
| PathSet (path : string).

Inductive dir_event :=
| DirMakedirs (path : string)
| DirOpenWrite (path : string)
| DirRemove (path : string)
| DirLog (l : level) (m : dir_message)
| DirPrint (m : dir_message).

Definition dir_log (log_manager : bool) (l : level) (m : dir_message) : list dir_event :=
  if log_manager then [DirLog l m] else [].

(** os.path.join(os.path.expanduser("~"), "Documents", "SmartBoardScreenshots") *)
Definition documents_dir (w : env) : string :=
  join w (join w (expanduser_home w) "Documents") "SmartBoardScreenshots".

(** The [try] block: the first call that raises ends it. *)
Definition write_test (w : env) (pr : probe) (save_path : string)
  : list dir_event * option exn :=
  let test_file := join w save_path "test_write.tmp" in
  match makedirs w save_path with
  | Some e => ([DirMakedirs save_path], Some e)
  | None =>
      match open_write pr test_file with
      | Some e => ([DirMakedirs save_path; DirOpenWrite test_file], Some e)
      | None =>
          match os_remove pr test_file with
          | Some e =>
              ([DirMakedirs save_path; DirOpenWrite test_file; DirRemove test_file], Some e)
          | None =>
              ([DirMakedirs save_path; DirOpenWrite test_file; DirRemove test_file], None)
          end
      end
  end.

Definition ensure_save_directory (w : env) (pr : probe) (self : BufferManager)
  : BufferManager * list dir_event * outcome :=
  let lg := log_manager self in
  match write_test w pr (save_path self) with
  | (t, None) => (self, t ++ dir_log lg INFO (DirReady (save_path self)), Returned)
  | (t, Some PermissionError) =>
      let user_docs := documents_dir w in
      let self1 :=
        MkBufferManager (max_size self) (ram_buffer self) user_docs (log_manager self)
                        (buffer_count self) (image_hashes self) in
      match makedirs w user_docs with
      | Some e => (self1, t ++ [DirMakedirs user_docs], Raised e)
      | None =>
          (self1,
           t ++ [DirMakedirs user_docs] ++ dir_log lg ERROR (DirSwitched user_docs)
             ++ [DirPrint (DirSwitched user_docs)],
           Returned)
      end
  | (t, Some e) => (self, t ++ dir_log lg ERROR (DirFailed e) ++ [DirPrint (DirFailed e)], Returned)
  end.

Definition set_save_path (w : env) (pr : probe) (path : string) (self : BufferManager)
  : BufferManager * list dir_event * outcome :=
  let self1 :=
    MkBufferManager (max_size self) (ram_buffer self) path (log_manager self)
                    (buffer_count self) (image_hashes self) in
  match ensure_save_directory w pr self1 with
  | (self2, t, Returned) =>
      (self2, t ++ dir_log (log_manager self2) INFO (PathSet path), Returned)
  | other => other
  end.

(** ** LogManager *)

(** The slice [l[k:]] of Python: a negative [k] counts from the end. *)
Definition slice_from {A} (l : list A) (k : Z) : list A :=
  if 0 <=? k then drop (Z.to_nat k) l
  else drop (Z.to_nat (Z.of_nat (length l) + k)) l.

Module LogManager.

(** An entry: the time stamp, the level, the text. *)
Definition entry : Type := string * string * string.

Record t := Make { logs : list entry; max_logs : Z }.

(** [LogManager(max_logs)], 1000 when not given. *)
Definition new (max_logs : Z) : t := Make [] max_logs.

(** [add_log(level, message)] at the time [now]; the [log_updated] signal
    is emitted once in every call. *)
Definition add_log (now level message : string) (self : t) : t :=
  let logs1 := logs self ++ [(now, level, message)] in
  if max_logs self <? Z.of_nat (length logs1)
  then Make (slice_from logs1 (- max_logs self)) (max_logs self)
  else Make logs1 (max_logs self).

Definition clear_logs (self : t) : t := Make [] (max_logs self).

Definition get_recent_logs (count : Z) (self : t) : list entry :=
  if count <? Z.of_nat (length (logs self))
  then slice_from (logs self) (- count)
  else logs self.

(** The entries of a sequence of [add_log] calls, oldest first. *)
Definition add_all (entries : list entry) (self : t) : t :=
  fold_left (fun s '(now, level, message) => add_log now level message s) entries self.

End LogManager.

(** ** The capture of one round *)

(** The capture call of one round of [MonitorThread.run], lines 78-83. *)
Definition capture_of (tk : MonitorThread.tick) : io (option pixmap) :=
  if MonitorThread.screenshot_manager tk then
    MonitorThread.at_point tk MonitorThread.AtCapture >>
    (if MonitorThread.foreground_detection tk && nonempty (MonitorThread.process_names tk)
     then capture_foreground_window (MonitorThread.os tk) (MonitorThread.process_names tk)
     else capture_screen (MonitorThread.os tk))
  else ret None.

(** What a round tells the application: the Qt signals. *)
Definition is_signal (ev : event) : bool :=
  match ev with
  | CaptureSignal _ | LogSignal _ _ | StatusSignal _ _ => true
  | _ => false
  end.

Definition is_capture_signal (ev : event) : bool :=
  match ev with CaptureSignal _ => true | _ => false end.

(** ** ScreenshotManager.save_to_file *)

(** The events, the exception printed if one was caught, and the value
    returned. *)
Definition save_to_file (w : env) (filepath : string) : list event * option exn * bool :=
  match os_makedirs w (dirname w filepath) >>
        QPixmap_save w (join w filepath (timestamp_file_name w)) with
  | (t, inr _) => (t, None, true)
  | (t, inl e) => (t, Some e, false)
  end.

(** ** Text of the settings *)

(** [s.split(sep)] for a separator of one character: the pieces between
    the separators, empty ones included. *)
Fixpoint str_split (sep : ascii) (s : string) : list string :=
  match s with
  | EmptyString => [EmptyString]
  | String c rest =>
      if Ascii.eqb c sep then EmptyString :: str_split sep rest
      else match str_split sep rest with
           | piece :: pieces => String c piece :: pieces
           | [] => [String c EmptyString]
           end
  end.

(** [sep.join(l)] *)
Fixpoint str_join (sep : string) (l : list string) : string :=
  match l with
  | [] => EmptyString
  | [x] => x
  | x :: rest => (x ++ sep ++ str_join sep rest)%string
  end.

(** Truth value of a [str]. *)
Definition str_bool (s : string) : bool := negb (String.eqb s "").

(** [[name.strip() for name in text.split(',') if name.strip()]] *)
Definition parse_process_names (text : string) : list string :=
  map strip (List.filter (fun name => str_bool (strip name)) (str_split "," text)).

(** ** ConfigManager: values that are lists *)

(** What [self.settings.value(key, '')] returns: a [str], or something
    else. *)
Inductive qvalue := QString (s : string) | QOther.

(** [save_config], line 133: what is stored for a list. *)
Definition save_list (value : list string) : string := str_join "," value.

(** [load_config], lines 92-96. *)
Definition load_list (value : qvalue) (default_value : list string) : list string :=
  match value with
  | QString s => if str_bool s then str_split "," s else default_value
  | QOther => default_value
  end.

(** ** The settings window *)

Module Gui.

(** [add_to_process_history]: the history afterwards, and whether it was
    saved and shown again. *)
Definition add_to_process_history (process_name : string) (process_history : list string)
  : list string * bool :=
  let process_name := strip process_name in
  if str_bool process_name && negb (bool_decide (process_name ∈ process_history)) then
    let process_history := process_history ++ [process_name] in
    (if 20 <? Z.of_nat (length process_history)
     then slice_from process_history (-20)
     else process_history,
     true)
  else (process_history, false).




End Gui.

(** ** SmartBoardApp *)

Module SmartBoardApp.

Inductive monitor_target := OneProcess (name : string) | ProcessCount (n : nat) | WholeDisplay.

(** The label for a list of names: the name when there is one, the number
    of names otherwise. *)
Definition target_of (process_names : list string) : monitor_target :=
  match process_names with
  | [name] => OneProcess name
  | _ => ProcessCount (length process_names)
  end.

(** [on_process_changed]: [self.current_processes] and the label. *)
Definition on_process_changed (process_text : string) : list string * monitor_target :=
  let process_text := strip process_text in
  if str_bool process_text then
    let process_names := parse_process_names process_text in
    (process_names, target_of process_names)
  else ([], WholeDisplay).

(** [start_monitoring], lines 414-427: the names given to the new thread,
    whose list is empty at first, and the target shown. *)
Definition thread_process_names (process_names : string) : list string :=
  if str_bool process_names then parse_process_names process_names else [].

Definition thread_monitor_target (process_names : string) (foreground_detection : bool)
  : monitor_target :=
  if str_bool process_names && foreground_detection
  then target_of (parse_process_names process_names)
  else WholeDisplay.

(** *** calculate_next_save_time *)

(** Lines 703-716: the time chosen and the days added to today. *)
Definition next_time_of (save_times : list string) (current_time_str : string)
  : option (string * Z) :=
  match List.find (fun time_str => String.ltb current_time_str time_str)
                  (merge_sort String.le save_times) with
  | Some next_time => Some (next_time, 0)
  | None =>
      match merge_sort String.le save_times with
      | next_time :: _ => Some (next_time, 1)
      | [] => None
      end
  end.

Inductive next_save := NotSet | NextSave (days hour minute : Z) | RaisesValueError.

(** [int] is Python's [int] on a [str], [None] where it raises
    [ValueError]. *)
Definition calculate_next_save_time (int : string → option Z) (save_times : list string)
    (current_time_str : string) : next_save :=
  if nonempty save_times then
    match next_time_of save_times current_time_str with
    | Some (next_time, days) =>
        match map int (str_split ":" next_time) with
        | [Some hour; Some minute] =>
            if (0 <=? hour) && (hour <? 24) && (0 <=? minute) && (minute <? 60)
            then NextSave days hour minute
            else RaisesValueError
        | _ => RaisesValueError
        end
    | None => NotSet
    end
  else NotSet.

(** *** handle_capture *)

Record t := Make {
  is_monitoring : bool;
  capture_count : Z;
  buffer_manager : BufferManager
}.

Inductive app_event :=
| PrintSaveToMemoryFailed (e : exn)
| Buffer (ev : event)                  (* what [add_to_buffer] does *)
| UpdateCaptureCount (count : Z)       (* gui.update_capture_count *)
| UpdateLastCapture
| UpdateActivityStatus
| StatusError (e : exn)                (* update_status_message("error", ...) *)
| LogError (e : exn).                  (* log_manager.add_log("ERROR", ...) *)

(** [ScreenshotManager.save_to_memory], given what writing the PNG into
    the [QBuffer] gives. *)
Definition save_to_memory (png : exn + list Byte.byte)
  : list app_event * option (list Byte.byte) :=
  match png with
  | inr data => ([], Some data)
  | inl e => ([PrintSaveToMemoryFailed e], None)
  end.

(** The three updates of the window after a capture was added set label
    texts; they are taken not to raise. *)
Definition handle_capture (w : env) (png : exn + list Byte.byte) (self : t)
  : t * list app_event * outcome :=
  if negb (is_monitoring self) then (self, [], Returned)
  else
    let '(t_mem, image_data) := save_to_memory png in
    match image_data with
    | Some data =>
        if nonempty data then
          let '(bm, t_add, out) := add_to_buffer w (Bytes data) true (buffer_manager self) in
          match out with
          | Returned =>
              let count := capture_count self + 1 in
              (Make (is_monitoring self) count bm,
               t_mem ++ map Buffer t_add
                 ++ [UpdateCaptureCount count; UpdateLastCapture; UpdateActivityStatus],
               Returned)
          | Raised e =>
              (Make (is_monitoring self) (capture_count self) bm,
               t_mem ++ map Buffer t_add ++ [StatusError e; LogError e],
               Returned)
          | Blocked =>
              (Make (is_monitoring self) (capture_count self) bm,
               t_mem ++ map Buffer t_add, Blocked)
          end
        else (self, t_mem, Returned)
    | None => (self, t_mem, Returned)
    end.

End SmartBoardApp.

(** * Properties *)

(** ** The digest *)

(** The RFC 1321 test suite: the empty message and "abc". *)
Example md5_empty : Md5.hexdigest [] = "d41d8cd98f00b204e9800998ecf8427e".
Proof. vm_compute. reflexivity. Qed.

Example md5_abc :
  Md5.hexdigest (list_byte_of_string "abc") = "900150983cd24fb0d6963f7d28e17f72".
Proof. vm_compute. reflexivity. Qed.

Example md5_two_blocks :
  Md5.hexdigest (repeat Byte.x61 64) = "014842d480b571495a4a0363793f7367".
Proof. vm_compute. reflexivity. Qed.

(** A digest is sixteen bytes, so its hexadecimal form is never the empty
    string: in Python terms, a computed hash is always truthy. *)
Lemma md5_hexdigest_length (data : list Byte.byte) :
  String.length (Md5.hexdigest data) = 32%nat.
Proof.
  unfold Md5.hexdigest, Md5.digest.
  generalize (Md5.blocks (length (Md5.pad (Md5.of_bytes data)) / 64)
                (Md5.Regs 0x67452301 0xefcdab89 0x98badcfe 0x10325476)
                (Md5.pad (Md5.of_bytes data))).
  intros r. reflexivity.
Qed.

Lemma md5_hexdigest_nonempty (data : list Byte.byte) : Md5.hexdigest data ≠ "".
Proof.
  intros H. pose proof (md5_hexdigest_length data) as L. rewrite H in L. discriminate.
Qed.

(** ** The queue *)

Lemma qsize_nonneg (q : Queue) : 0 <= qsize q.
Proof. unfold qsize. lia. Qed.

Lemma empty_true (q : Queue) : empty q = true ↔ queue q = [].
Proof.
  unfold empty, qsize. rewrite Z.eqb_eq. destruct (queue q); simpl; split; intros; try done; lia.
Qed.

Lemma full_false_room (q : Queue) :
  0 < maxsize q → full q = false → qsize q < maxsize q.
Proof.
  unfold full. intros Hpos H. apply andb_false_iff in H as [H | H].
  - apply Z.ltb_ge in H. lia.
  - apply Z.leb_gt in H. lia.
Qed.

Lemma put_Some (q q' : Queue) (x : item) :
  put q x = Some q' → full q = false ∧ q' = MkQueue (maxsize q) (queue q ++ [x]).
Proof. unfold put. destruct (full q); intros H; inversion H; done. Qed.

Lemma put_not_full (q : Queue) (x : item) :
  full q = false → put q x = Some (MkQueue (maxsize q) (queue q ++ [x])).
Proof. unfold put. intros ->. reflexivity. Qed.

Lemma full_empty_queue (n : Z) : full (MkQueue n []) = false.
Proof. unfold full, qsize. simpl. destruct (0 <? n) eqn:E; simpl; [|done]. apply Z.ltb_lt in E. apply Z.leb_gt. lia. Qed.

(** Refilling a fresh queue of size [n] with at most [n] items never waits. *)
Lemma put_all_fits (n : Z) (held items : list item) :
  (0 < n → Z.of_nat (length held + length items) <= n) →
  put_all (MkQueue n held) items = (MkQueue n (held ++ items), true).
Proof.
  revert held. induction items as [|x rest IH]; intros held H; simpl.
  - by rewrite app_nil_r.
  - rewrite put_not_full; simpl.
    + rewrite IH; [by rewrite <- app_assoc|].
      intros Hn. specialize (H Hn). rewrite length_app. simpl in *. lia.
    + unfold full, qsize. simpl. destruct (0 <? n) eqn:E; simpl; [|done].
      apply Z.ltb_lt in E. specialize (H E). simpl in H. apply Z.leb_gt. lia.
Qed.

Lemma slice_to_length {A} (l : list A) (n : Z) :
  0 < n → Z.of_nat (length (slice_to l n)) <= n.
Proof.
  intros Hn. unfold slice_to. destruct (0 <=? n) eqn:E; [|apply Z.leb_gt in E; lia].
  rewrite length_take. lia.
Qed.

Lemma slice_to_nonneg {A} (l : list A) (n : Z) :
  0 <= n → slice_to l n = take (Z.to_nat n) l.
Proof. intros Hn. unfold slice_to. destruct (0 <=? n) eqn:E; [done|]. apply Z.leb_gt in E. lia. Qed.

(** ** The save worker *)

(** Every round of the loop ends normally: [except Exception] takes
    whatever the round raises. *)
Lemma save_one_total (w : env) (lg : bool) (it : item) :
  ∃ n, snd (save_one w lg it) = inr n ∧ (n = 0 ∨ n = 1).
Proof.
  unfold save_one, try_except, bind, os_makedirs, QPixmap_loadFromData, QPixmap_save,
    add_log, emit, ret, raise, is_Exception, is_PermissionError.
  repeat (match goal with
          | |- context [match makedirs ?w ?p with _ => _ end] => destruct (makedirs w p) as [[]|]
          | |- context [match load_from_data ?w ?p with _ => _ end] => destruct (load_from_data w p)
          | |- context [match pixmap_save ?w ?p with _ => _ end] => destruct (pixmap_save w p)
          | |- context [if ?b then _ else _] => destruct b
          end; simpl);
    eauto.
Qed.

(** The events of the whole loop are those of its rounds, one round per
    queued item in queue order, whatever happens inside a round. *)
Lemma save_loop_rounds (w : env) (lg : bool) (items : list item) (n : Z) :
  save_loop w lg items n =
  (flat_map (round_events w lg) items,
   n + foldr Z.add 0 (map (saved_by w lg) items)).
Proof.
  revert n. induction items as [|it rest IH]; intros n; simpl.
  - f_equal. lia.
  - destruct (save_one w lg it) as [t r] eqn:E. rewrite IH. simpl.
    unfold saved_by. rewrite E. simpl.
    destruct r; f_equal; lia.
Qed.

Lemma _save_worker_empty (w : env) (self : BufferManager) :
  queue (ram_buffer self) = [] → _save_worker w self = (self, []).
Proof. intros H. unfold _save_worker. apply empty_true in H. by rewrite H. Qed.

Lemma _save_worker_drains (w : env) (self : BufferManager) :
  queue (ram_buffer self) ≠ [] →
  fst (_save_worker w self) =
  MkBufferManager (max_size self) (MkQueue (maxsize (ram_buffer self)) [])
                  (save_path self) (log_manager self) 0 ∅.
Proof.
  intros H. unfold _save_worker.
  destruct (empty (ram_buffer self)) eqn:E; [apply empty_true in E; done|].
  destruct (save_loop _ _ _ _). reflexivity.
Qed.

(** After [_save_worker] the queue is empty in every case. *)
Lemma _save_worker_queue (w : env) (self : BufferManager) :
  queue (ram_buffer (fst (_save_worker w self))) = [] ∧
  maxsize (ram_buffer (fst (_save_worker w self))) = maxsize (ram_buffer self) ∧
  max_size (fst (_save_worker w self)) = max_size self ∧
  save_path (fst (_save_worker w self)) = save_path self ∧
  log_manager (fst (_save_worker w self)) = log_manager self.
Proof.
  destruct (queue (ram_buffer self)) eqn:E.
  - rewrite _save_worker_empty by done. simpl. by rewrite E.
  - rewrite _save_worker_drains by (rewrite E; done). simpl. done.
Qed.

(** The sum of what the rounds add to [saved_count]. *)
Lemma saved_total_app (w : env) (lg : bool) (l1 l2 : list item) :
  foldr Z.add 0 (map (saved_by w lg) (l1 ++ l2)) =
  foldr Z.add 0 (map (saved_by w lg) l1) + foldr Z.add 0 (map (saved_by w lg) l2).
Proof. induction l1 as [|x l1 IH]; simpl; lia. Qed.

(** The events of [_save_worker] on a queue that is not empty: the rounds
    of all queued items in queue order, then the count, the signal, the
    clearing of the hashes and the summary. *)
Lemma _save_worker_trace (w : env) (self : BufferManager) :
  queue (ram_buffer self) ≠ [] →
  let total := foldr Z.add 0 (map (saved_by w (log_manager self)) (queue (ram_buffer self))) in
  snd (_save_worker w self) =
  flat_map (round_events w (log_manager self)) (queue (ram_buffer self))
  ++ [Write FBufferCount; BufferUpdated 0 (max_size self); Write FImageHashes]
  ++ (if 0 <? total
      then fst (add_log (log_manager self) INFO (MsgSavedTotal total))
      else []).
Proof.
  intros H total. unfold _save_worker.
  destruct (empty (ram_buffer self)) eqn:E; [apply empty_true in E; done|].
  rewrite save_loop_rounds. simpl. reflexivity.
Qed.

(** ** Adding to the buffer *)

(** The queue is never full when [add_to_buffer] reaches [put]. *)
Lemma with_room_not_full (w : env) (self : BufferManager) :
  full (ram_buffer (with_room w self)) = false.
Proof.
  unfold with_room. destruct (full (ram_buffer self)) eqn:E; [|done].
  destruct (_save_worker_queue w self) as (Hq & Hm & _).
  unfold full, qsize. rewrite Hq. simpl.
  destruct (0 <? _) eqn:E'; simpl; [|done]. apply Z.ltb_lt in E'. apply Z.leb_gt. lia.
Qed.

(** [add_to_buffer], by cases: a duplicate leaves everything as it is;
    otherwise the hash is recorded, a full queue is saved, and the item is
    queued unless creating its directory raises. *)
Lemma add_to_buffer_cases (w : env) (d : image_data) (sm : bool) (self : BufferManager) :
  let r := add_to_buffer w d sm self in
  let s2 := with_room w (with_hash d self) in
  if is_duplicate d self then fst (fst r) = self ∧ snd r = Returned
  else match snd (date_dir_for w (save_path s2) (date_str_of w sm)) with
       | inl e => fst (fst r) = s2 ∧ snd r = Raised e
       | inr date_dir =>
           let q := MkQueue (maxsize (ram_buffer s2))
                            (queue (ram_buffer s2) ++ [new_item w d sm date_dir]) in
           fst (fst r) = set_buffer_count (qsize q) (set_ram_buffer q s2) ∧
           snd r = Returned
       end.
Proof.
  pose proof (with_room_not_full w (with_hash d self)) as Hroom.
  unfold add_to_buffer, is_duplicate, with_room, with_hash, new_item, date_str_of in *.
  destruct (calculate_image_hash d) as [t_hash image_hash]. simpl in *.
  destruct (truthy image_hash && hash_in image_hash (image_hashes self)) eqn:Hdup;
    [done|].
  destruct (truthy image_hash) eqn:Ht.
  - destruct (full (ram_buffer (set_image_hashes _ self))) eqn:Hfull.
    + destruct (_save_worker w _) as [s t] eqn:Hw. simpl in *.
      destruct (date_dir_for w (save_path s) _) as [t_dir [e|dd]]; simpl; [done|].
      rewrite put_not_full by done. done.
    + destruct (date_dir_for w _ _) as [t_dir [e|dd]]; simpl; [done|].
      rewrite put_not_full by done. done.
  - destruct (full (ram_buffer self)) eqn:Hfull.
    + destruct (_save_worker w _) as [s t] eqn:Hw. simpl in *.
      destruct (date_dir_for w (save_path s) _) as [t_dir [e|dd]]; simpl; [done|].
      rewrite put_not_full by done. done.
    + destruct (date_dir_for w _ _) as [t_dir [e|dd]]; simpl; [done|].
      rewrite put_not_full by done. done.
Qed.

(** [add_to_buffer] never waits inside [put]. *)
Lemma add_to_buffer_never_blocks (w : env) (d : image_data) (sm : bool) (self : BufferManager) :
  snd (add_to_buffer w d sm self) ≠ Blocked.
Proof.
  pose proof (add_to_buffer_cases w d sm self) as H. simpl in H.
  destruct (is_duplicate d self); [destruct H as [_ ->]; done|].
  destruct (snd (date_dir_for _ _ _)); destruct H as [_ ->]; done.
Qed.

Lemma date_dir_for_created (w : env) (save_path date_str : string) :
  makedirs w (join w save_path date_str) = None →
  date_dir_for w save_path date_str =
  ([Makedirs (join w save_path date_str)], inr (join w save_path date_str)).
Proof.
  intros H. unfold date_dir_for, try_except, bind, os_makedirs, emit, ret. simpl.
  rewrite H. reflexivity.
Qed.

(** ** The capacity invariant *)

Lemma set_buffer_size_result (size : Z) (self : BufferManager) :
  0 < size →
  set_buffer_size size self =
  (MkBufferManager size (MkQueue size (take (Z.to_nat size) (queue (ram_buffer self))))
                   (save_path self) (log_manager self) (buffer_count self)
                   (image_hashes self),
   [Acquire; Write FMaxSize; Write FRamBuffer]
     ++ repeat (Write FRamBuffer)
               (length (take (Z.to_nat size) (queue (ram_buffer self))))
     ++ [Release],
   Returned).
Proof.
  intros Hpos. unfold set_buffer_size. simpl.
  rewrite put_all_fits.
  - simpl. rewrite slice_to_nonneg by lia. reflexivity.
  - intros _. simpl. by apply slice_to_length.
Qed.

Lemma with_hash_buffer (d : image_data) (self : BufferManager) :
  ram_buffer (with_hash d self) = ram_buffer self ∧
  max_size (with_hash d self) = max_size self.
Proof. unfold with_hash. destruct (truthy _); done. Qed.

Lemma with_room_capacity (w : env) (self : BufferManager) :
  capacity_ok self → capacity_ok (with_room w self).
Proof.
  intros (Hpos & Hm & Hq). unfold with_room.
  destruct (full (ram_buffer self)); [|done].
  destruct (_save_worker_queue w self) as (Hq' & Hm' & Hx' & _).
  unfold capacity_ok, qsize. rewrite Hq', Hm', Hx'. simpl. lia.
Qed.

Lemma step_capacity_ok (self : BufferManager) (o : op) :
  positive_resize o → capacity_ok self → capacity_ok (step self o).
Proof.
  intros Hres Hok. destruct o as [w d sm | w | size]; simpl.
  - pose proof (add_to_buffer_cases w d sm self) as H. simpl in H.
    assert (capacity_ok (with_room w (with_hash d self))) as Hok2.
    { apply with_room_capacity. destruct Hok as (? & ? & ?).
      destruct (with_hash_buffer d self) as [Hb Hx].
      unfold capacity_ok. rewrite Hb, Hx. done. }
    pose proof (with_room_not_full w (with_hash d self)) as Hroom.
    destruct (is_duplicate d self); [destruct H as [-> _]; done|].
    destruct (snd (date_dir_for _ _ _)); destruct H as [-> _]; [done|].
    destruct Hok2 as (Hpos & Hm & Hq).
    apply full_false_room in Hroom; [|lia].
    unfold capacity_ok, qsize in *. simpl. rewrite length_app. simpl. lia.
  - destruct Hok as (Hpos & Hm & Hq).
    destruct (_save_worker_queue w self) as (Hq' & Hm' & Hx' & _).
    unfold capacity_ok, qsize. rewrite Hq', Hm', Hx'. simpl. lia.
  - simpl in Hres. rewrite set_buffer_size_result by done. simpl.
    unfold capacity_ok, qsize. simpl. rewrite length_take. lia.
Qed.

Lemma run_capacity_ok (ops : list op) (self : BufferManager) :
  Forall positive_resize ops → capacity_ok self → capacity_ok (run self ops).
Proof.
  revert self. induction ops as [|o rest IH]; intros self Hres Hok; [done|].
  inversion Hres; subst. simpl. apply IH; [done|]. by apply step_capacity_ok.
Qed.

(** C3.  From an empty buffer of positive capacity, after any sequence of
    Add, DrainAll and Resize calls (sizes positive) the queue holds at most
    [max_size] items; and a Resize keeps exactly the oldest [size] items,
    in order, when more than [size] were queued. *)
Theorem capacity_invariant (self : BufferManager) (ops : list op) :
  queue (ram_buffer self) = [] →
  0 < max_size self →
  maxsize (ram_buffer self) = max_size self →
  Forall positive_resize ops →
  qsize (ram_buffer (run self ops)) <= max_size (run self ops) ∧
  (∀ size, 0 < size →
     let resized := step (run self ops) (Resize size) in
     max_size resized = size ∧
     queue (ram_buffer resized) = take (Z.to_nat size) (queue (ram_buffer (run self ops))) ∧
     (size <= qsize (ram_buffer (run self ops)) → qsize (ram_buffer resized) = size)).
Proof.
  intros Hempty Hpos Hm Hres. split.
  - apply (run_capacity_ok ops self Hres). unfold capacity_ok, qsize.
    rewrite Hempty. simpl. lia.
  - intros size Hsize. simpl. rewrite set_buffer_size_result by done. simpl.
    split; [done|]. split; [done|]. unfold qsize. simpl. rewrite length_take. lia.
Qed.

Lemma capacity_invariant_witness :
  let ops := [Add Example_env.calm (Example_env.image "A") true;
              Add Example_env.calm (Example_env.image "B") true;
              Resize 10;
              Add Example_env.calm (Example_env.image "C") true;
              DrainAll Example_env.calm] in
  Forall positive_resize ops ∧
  qsize (ram_buffer (run (new_BufferManager true ".\screenshots") ops))
  <= max_size (run (new_BufferManager true ".\screenshots") ops).
Proof.
  intros ops.
  assert (Forall positive_resize ops) as Hres.
  { repeat constructor. }
  split; [exact Hres|].
  apply (capacity_invariant (new_BufferManager true ".\screenshots") ops);
    [reflexivity | simpl; lia | reflexivity | exact Hres].
Defined.

(** ** Duplicates *)

Lemma truthy_md5 (b : list Byte.byte) : truthy (Some (Md5.hexdigest b)) = true.
Proof.
  unfold truthy. apply negb_true_iff, String.eqb_neq, md5_hexdigest_nonempty.
Qed.

Lemma with_hash_records (b : list Byte.byte) (self : BufferManager) :
  Md5.hexdigest b ∈ image_hashes (with_hash (Bytes b) self).
Proof.
  unfold with_hash. simpl calculate_image_hash. cbv zeta.
  change (snd ([], Some (Md5.hexdigest b))) with (Some (Md5.hexdigest b)).
  rewrite truthy_md5. simpl. set_solver.
Qed.

Lemma with_hash_keeps (h : string) (d : image_data) (self : BufferManager) :
  h ∈ image_hashes self → h ∈ image_hashes (with_hash d self).
Proof.
  intros H. unfold with_hash. destruct (truthy _); [|done].
  simpl. unfold hash_add. destruct (snd _); set_solver.
Qed.

Lemma set_buffer_size_hashes (size : Z) (self : BufferManager) :
  image_hashes (fst (fst (set_buffer_size size self))) = image_hashes self.
Proof.
  unfold set_buffer_size. destruct (put_all _ _) as [q []]; reflexivity.
Qed.

(** A duplicate is found from the recorded hash alone. *)
Lemma is_duplicate_bytes (b : list Byte.byte) (self : BufferManager) :
  is_duplicate (Bytes b) self = bool_decide (Md5.hexdigest b ∈ image_hashes self).
Proof.
  unfold is_duplicate. simpl calculate_image_hash. cbv zeta.
  change (snd ([], Some (Md5.hexdigest b))) with (Some (Md5.hexdigest b)).
  rewrite truthy_md5. reflexivity.
Qed.

(** The state a call that does not flush leaves: every hash seen stays. *)
Lemma step_keeps_hash (h : string) (self : BufferManager) (o : op) :
  flushes self o = false → h ∈ image_hashes self → h ∈ image_hashes (step self o).
Proof.
  intros Hfl Hin. destruct o as [w d sm | w | size]; simpl in *.
  - pose proof (add_to_buffer_cases w d sm self) as H. simpl in H.
    destruct (is_duplicate d self) eqn:Hdup; [destruct H as [-> _]; done|].
    simpl in Hfl. unfold with_room in H. rewrite Hfl in H.
    destruct (snd (date_dir_for _ _ _)); destruct H as [-> _]; simpl;
      by apply with_hash_keeps.
  - apply negb_false_iff, empty_true in Hfl. by rewrite _save_worker_empty.
  - by rewrite set_buffer_size_hashes.
Qed.

Lemma step_add_records (w : env) (b : list Byte.byte) (sm : bool) (self : BufferManager) :
  flushes self (Add w (Bytes b) sm) = false →
  Md5.hexdigest b ∈ image_hashes (step self (Add w (Bytes b) sm)).
Proof.
  intros Hfl. unfold flushes in Hfl. unfold step.
  pose proof (add_to_buffer_cases w (Bytes b) sm self) as H. cbv zeta in H.
  destruct (is_duplicate (Bytes b) self) eqn:Hdup.
  - destruct H as [-> _]. rewrite is_duplicate_bytes in Hdup.
    by apply bool_decide_eq_true in Hdup.
  - rewrite andb_true_l in Hfl. unfold with_room in H. rewrite Hfl in H.
    destruct (snd (date_dir_for _ _ _)); destruct H as [-> _];
      [|unfold set_buffer_count, set_ram_buffer; cbn [image_hashes]];
      apply with_hash_records.
Qed.

Lemma run_keeps_hash (h : string) (ops : list op) (self : BufferManager) :
  unflushed self ops = true → h ∈ image_hashes self → h ∈ image_hashes (run self ops).
Proof.
  revert self. induction ops as [|o rest IH]; intros self Hun Hin; [done|].
  simpl in *. apply andb_true_iff in Hun as [Hfl Hun].
  apply negb_true_iff in Hfl. apply IH; [done|]. by apply step_keeps_hash.
Qed.

(** After an Add of an image that does not itself force a flush, and any
    further calls none of which flushes the buffer, an Add of an image with
    the same bytes is skipped as a duplicate: the manager is left exactly as
    it was, so the queue does not grow, and the call only logs the skip. *)
Theorem duplicate_skipped_in_unflushed_window
    (self : BufferManager) (w w' : env) (sm sm' : bool)
    (bytes : list Byte.byte) (ops : list op) :
  unflushed self (Add w (Bytes bytes) sm :: ops) = true →
  let s := run self (Add w (Bytes bytes) sm :: ops) in
  add_to_buffer w' (Bytes bytes) sm' s =
  (s, [Acquire] ++ fst (add_log (log_manager s) INFO MsgDuplicateSkipped) ++ [Release],
   Returned) ∧
  qsize (ram_buffer (step s (Add w' (Bytes bytes) sm'))) = qsize (ram_buffer s).
Proof.
  intros Hun s.
  assert (Md5.hexdigest bytes ∈ image_hashes s) as Hin.
  { subst s. simpl in *. apply andb_true_iff in Hun as [Hfl Hun].
    apply negb_true_iff in Hfl. apply run_keeps_hash; [done|].
    by apply step_add_records. }
  assert (add_to_buffer w' (Bytes bytes) sm' s =
          (s, [Acquire] ++ fst (add_log (log_manager s) INFO MsgDuplicateSkipped)
                ++ [Release], Returned)) as Heq.
  { unfold add_to_buffer. simpl calculate_image_hash. cbv iota beta.
    rewrite truthy_md5. simpl hash_in. rewrite bool_decide_eq_true_2 by done.
    reflexivity. }
  split; [exact Heq|]. simpl. by rewrite Heq.
Qed.

Lemma duplicate_skipped_in_unflushed_window_witness :
  let self := new_BufferManager true ".\screenshots" in
  let ops := [Add Example_env.calm (Example_env.image "B") true; Resize 50] in
  unflushed self (Add Example_env.calm (Example_env.image "A") true :: ops) = true ∧
  qsize (ram_buffer
           (step (run self (Add Example_env.calm (Example_env.image "A") true :: ops))
                 (Add Example_env.calm (Example_env.image "A") false)))
  = qsize (ram_buffer (run self (Add Example_env.calm (Example_env.image "A") true :: ops))).
Proof.
  intros self ops.
  assert (unflushed self (Add Example_env.calm (Example_env.image "A") true :: ops) = true)
    as Hun by (vm_compute; reflexivity).
  split; [exact Hun|].
  apply (duplicate_skipped_in_unflushed_window self Example_env.calm Example_env.calm
           true false (list_byte_of_string "A") ops Hun).
Defined.

(** ** Images that cannot be hashed *)

Lemma with_room_fields (w : env) (self : BufferManager) :
  save_path (with_room w self) = save_path self ∧
  log_manager (with_room w self) = log_manager self ∧
  (image_hashes (with_room w self) = image_hashes self ∨
   image_hashes (with_room w self) = ∅).
Proof.
  unfold with_room. destruct (full (ram_buffer self)); [|auto].
  destruct (_save_worker_queue w self) as (_ & _ & _ & Hp & Hl).
  split; [done|]. split; [done|].
  destruct (queue (ram_buffer self)) eqn:E.
  - rewrite _save_worker_empty by done. auto.
  - rewrite _save_worker_drains by (rewrite E; done). auto.
Qed.

(** C8.  When [calculate_image_hash] gives no hash, [add_to_buffer] does
    not take the image for a duplicate, whatever [image_hashes] holds; it
    records no hash for it; and it queues the image, its hash field empty,
    at the tail, whenever the date directory of the image can be made. *)
Theorem unhashable_image_is_admitted
    (w : env) (d : image_data) (sm : bool) (self : BufferManager) :
  snd (calculate_image_hash d) = None →
  let r := add_to_buffer w d sm self in
  is_duplicate d self = false ∧
  with_hash d self = self ∧
  (image_hashes (fst (fst r)) = image_hashes self ∨ image_hashes (fst (fst r)) = ∅) ∧
  ∀ date_dir,
    snd (date_dir_for w (save_path self) (date_str_of w sm)) = inr date_dir →
    snd r = Returned ∧
    queue (ram_buffer (fst (fst r)))
    = queue (ram_buffer (with_room w self)) ++ [new_item w d sm date_dir] ∧
    hash (new_item w d sm date_dir) = None.
Proof.
  intros Hnone r.
  assert (is_duplicate d self = false) as Hdup.
  { unfold is_duplicate. by rewrite Hnone. }
  assert (with_hash d self = self) as Hwh.
  { unfold with_hash. by rewrite Hnone. }
  pose proof (add_to_buffer_cases w d sm self) as H. cbv zeta in H.
  rewrite Hdup, Hwh in H.
  destruct (with_room_fields w self) as (Hp & _ & Hh).
  rewrite Hp in H. fold r in H.
  split; [done|]. split; [done|]. split.
  - destruct (snd (date_dir_for w (save_path self) (date_str_of w sm)));
      destruct H as [-> _]; done.
  - intros date_dir Hdir. rewrite Hdir in H. destruct H as [-> ->].
    split; [done|]. split; [done|]. unfold new_item. simpl. exact Hnone.
Qed.

Lemma unhashable_image_is_admitted_witness :
  let self := step (new_BufferManager true ".\screenshots")
                   (Add Example_env.calm (Example_env.image "A") true) in
  let r := add_to_buffer Example_env.calm NotBytes true self in
  snd (calculate_image_hash NotBytes) = None ∧
  is_duplicate NotBytes self = false ∧
  map data (queue (ram_buffer (fst (fst r)))) = [Example_env.image "A"; NotBytes].
Proof.
  intros self r.
  assert (snd (calculate_image_hash NotBytes) = None) as Hnone by reflexivity.
  destruct (unhashable_image_is_admitted Example_env.calm NotBytes true self Hnone)
    as (Hdup & _ & _ & Hq).
  split; [exact Hnone|]. split; [exact Hdup|].
  destruct (Hq ".\screenshots\2023-11-14_Tue") as (_ & Hqueue & _);
    [vm_compute; reflexivity|].
  subst r. rewrite Hqueue. vm_compute. reflexivity.
Defined.

(** ** The forced flush and the set of seen hashes *)

Lemma full_nonempty (q : Queue) : full q = true → queue q ≠ [].
Proof.
  unfold full, qsize. intros H E. rewrite E in H. simpl in H.
  apply andb_true_iff in H as [H1 H2].
  apply Z.ltb_lt in H1. apply Z.leb_le in H2. lia.
Qed.

(** The manager after [add_to_buffer] of a new image on a full queue. *)
Lemma add_on_full_queue
    (w : env) (c : list Byte.byte) (sm : bool) (self : BufferManager) (date_dir : string) :
  full (ram_buffer self) = true →
  Md5.hexdigest c ∉ image_hashes self →
  snd (date_dir_for w (save_path self) (date_str_of w sm)) = inr date_dir →
  add_to_buffer w (Bytes c) sm self =
  (MkBufferManager (max_size self)
     (MkQueue (maxsize (ram_buffer self)) [new_item w (Bytes c) sm date_dir])
     (save_path self) (log_manager self) 1 ∅,
   snd (fst (add_to_buffer w (Bytes c) sm self)), Returned).
Proof.
  intros Hfull Hnew Hdir.
  pose proof (add_to_buffer_cases w (Bytes c) sm self) as H. cbv zeta in H.
  rewrite is_duplicate_bytes, bool_decide_eq_false_2 in H by done.
  assert (ram_buffer (with_hash (Bytes c) self) = ram_buffer self) as Hb
    by apply with_hash_buffer.
  assert (save_path (with_hash (Bytes c) self) = save_path self) as Hp.
  { unfold with_hash. destruct (truthy _); done. }
  assert (with_room w (with_hash (Bytes c) self) =
          MkBufferManager (max_size self) (MkQueue (maxsize (ram_buffer self)) [])
                          (save_path self) (log_manager self) 0 ∅) as Hroom.
  { unfold with_room. rewrite Hb, Hfull.
    rewrite _save_worker_drains by (rewrite Hb; by apply full_nonempty).
    rewrite Hb, Hp. f_equal; unfold with_hash; destruct (truthy _); done. }
  rewrite Hroom in H. simpl save_path in H. rewrite Hdir in H.
  destruct H as [Hs Ho].
  destruct (add_to_buffer w (Bytes c) sm self) as [[s t] o]. simpl in *.
  subst s o. reflexivity.
Qed.

(** Its events contain the rounds of the save loop for all the items that
    were queued. *)
Lemma add_on_full_queue_trace
    (w : env) (c : list Byte.byte) (sm : bool) (self : BufferManager) :
  full (ram_buffer self) = true →
  Md5.hexdigest c ∉ image_hashes self →
  ∃ t1 t2,
    snd (fst (add_to_buffer w (Bytes c) sm self)) =
    t1 ++ flat_map (round_events w (log_manager self)) (queue (ram_buffer self)) ++ t2.
Proof.
  intros Hfull Hnew. unfold add_to_buffer.
  simpl calculate_image_hash. cbv iota beta.
  rewrite truthy_md5. simpl hash_in. rewrite bool_decide_eq_false_2 by done.
  simpl andb. cbv iota.
  set (self1 := set_image_hashes _ self).
  change (full (ram_buffer self1)) with (full (ram_buffer self)). rewrite Hfull.
  pose proof (_save_worker_trace w self1 (full_nonempty _ Hfull)) as Ht.
  cbv zeta in Ht.
  change (log_manager self1) with (log_manager self) in Ht.
  change (queue (ram_buffer self1)) with (queue (ram_buffer self)) in Ht.
  destruct (_save_worker w self1) as [s t]. simpl in Ht. subst t.
  destruct (date_dir_for w (save_path s) _) as [t_dir [e|dd]].
  - eexists [Acquire; Write FImageHashes; BufferFullSignal], _. simpl.
    rewrite <- !app_assoc. reflexivity.
  - destruct (put _ _); eexists [Acquire; Write FImageHashes; BufferFullSignal], _;
      simpl; rewrite <- !app_assoc; reflexivity.
Qed.

(** C1.  On a full queue, [add_to_buffer] records the hash of the new image
    before it calls [_save_worker], and [_save_worker] ends with
    [self.image_hashes.clear()]: the queued items go through the save loop,
    the new image is queued alone, and the set of seen hashes is left
    empty, without the hash of the image just queued. *)
Theorem forced_flush_forgets_new_hash
    (w : env) (c : list Byte.byte) (sm : bool) (self : BufferManager) (date_dir : string) :
  full (ram_buffer self) = true →
  Md5.hexdigest c ∉ image_hashes self →
  snd (date_dir_for w (save_path self) (date_str_of w sm)) = inr date_dir →
  let s := step self (Add w (Bytes c) sm) in
  (∃ t1 t2,
     snd (fst (add_to_buffer w (Bytes c) sm self)) =
     t1 ++ flat_map (round_events w (log_manager self)) (queue (ram_buffer self)) ++ t2) ∧
  queue (ram_buffer s) = [new_item w (Bytes c) sm date_dir] ∧
  hash (new_item w (Bytes c) sm date_dir) = Some (Md5.hexdigest c) ∧
  image_hashes s = ∅ ∧
  image_hashes s ≠ {[Md5.hexdigest c]}.
Proof.
  intros Hfull Hnew Hdir s.
  split; [by apply add_on_full_queue_trace|].
  subst s. unfold step. rewrite (add_on_full_queue w c sm self date_dir) by done.
  simpl. split; [done|]. split; [done|]. split; [done|].
  intros E. assert (Md5.hexdigest c ∈ (∅ : gset string)) as Hin by (rewrite E; set_solver).
  set_solver.
Qed.

Lemma forced_flush_forgets_new_hash_witness :
  let two := step (new_BufferManager true ".\screenshots") (Resize 2) in
  let self := run two [Add Example_env.calm (Example_env.image "A") true;
                       Add Example_env.calm (Example_env.image "B") true] in
  let s := step self (Add Example_env.calm (Example_env.image "C") true) in
  full (ram_buffer self) = true ∧
  map data (queue (ram_buffer s)) = [Example_env.image "C"] ∧
  image_hashes s = ∅.
Proof.
  intros two self s.
  assert (full (ram_buffer self) = true) as Hfull by (vm_compute; reflexivity).
  assert (Md5.hexdigest (list_byte_of_string "C") ∉ image_hashes self) as Hnew.
  { apply (bool_decide_unpack _). vm_compute. exact I. }
  destruct (forced_flush_forgets_new_hash Example_env.calm (list_byte_of_string "C") true
              self ".\screenshots\2023-11-14_Tue" Hfull Hnew)
    as (_ & Hq & _ & Hh & _); [vm_compute; reflexivity|].
  split; [exact Hfull|]. split; [exact (f_equal (map data) Hq) | exact Hh].
Defined.

(** C5.  An image queued by an Add that forced a flush is not protected
    against duplicates: its hash was cleared with the others, so the next
    Add of the same bytes, with no flush between the two calls, is not
    skipped; the image is queued a second time and, when the capacity is
    above one, the queue grows from one item to two. *)
Theorem identical_image_admitted_after_forced_flush
    (w w' : env) (c : list Byte.byte) (sm sm' : bool) (self : BufferManager)
    (date_dir date_dir' : string) :
  full (ram_buffer self) = true →
  Md5.hexdigest c ∉ image_hashes self →
  snd (date_dir_for w (save_path self) (date_str_of w sm)) = inr date_dir →
  snd (date_dir_for w' (save_path self) (date_str_of w' sm')) = inr date_dir' →
  let s := step self (Add w (Bytes c) sm) in
  let s' := step s (Add w' (Bytes c) sm') in
  queue (ram_buffer s) = [new_item w (Bytes c) sm date_dir] ∧
  is_duplicate (Bytes c) s = false ∧
  snd (add_to_buffer w' (Bytes c) sm' s) = Returned ∧
  last (queue (ram_buffer s')) = Some (new_item w' (Bytes c) sm' date_dir') ∧
  (1 < maxsize (ram_buffer self) →
     queue (ram_buffer s') =
     [new_item w (Bytes c) sm date_dir; new_item w' (Bytes c) sm' date_dir']).
Proof.
  intros Hfull Hnew Hdir Hdir' s s'. subst s'.
  assert (s = MkBufferManager (max_size self)
                (MkQueue (maxsize (ram_buffer self)) [new_item w (Bytes c) sm date_dir])
                (save_path self) (log_manager self) 1 ∅) as Hs.
  { subst s. unfold step. by rewrite (add_on_full_queue w c sm self date_dir). }
  clearbody s. subst s.
  set (s := MkBufferManager _ _ _ _ _ _).
  assert (is_duplicate (Bytes c) s = false) as Hdup.
  { rewrite is_duplicate_bytes. apply bool_decide_eq_false_2. set_solver. }
  pose proof (add_to_buffer_cases w' (Bytes c) sm' s) as H. cbv zeta in H.
  rewrite Hdup in H.
  destruct (with_room_fields w' (with_hash (Bytes c) s)) as (Hp & _ & _).
  assert (save_path (with_hash (Bytes c) s) = save_path self) as Hp'.
  { unfold with_hash. destruct (truthy _); done. }
  rewrite Hp, Hp', Hdir' in H. destruct H as [Hst Hout].
  split; [done|]. split; [done|]. split; [done|]. split.
  - unfold step. rewrite Hst. simpl. apply last_snoc.
  - intros Hcap. unfold step. rewrite Hst. simpl.
    assert (with_room w' (with_hash (Bytes c) s) = with_hash (Bytes c) s) as ->.
    { unfold with_room.
      assert (full (ram_buffer (with_hash (Bytes c) s)) = false) as ->; [|done].
      destruct (with_hash_buffer (Bytes c) s) as [-> _].
      unfold full, qsize. simpl. apply andb_false_iff. right. apply Z.leb_gt. lia. }
    destruct (with_hash_buffer (Bytes c) s) as [-> _]. reflexivity.
Qed.

Lemma identical_image_admitted_after_forced_flush_witness :
  let two := step (new_BufferManager true ".\screenshots") (Resize 2) in
  let self := run two [Add Example_env.calm (Example_env.image "A") true;
                       Add Example_env.calm (Example_env.image "B") true] in
  let s := step self (Add Example_env.calm (Example_env.image "C") true) in
  let s' := step s (Add Example_env.calm (Example_env.image "C") true) in
  full (ram_buffer self) = true ∧
  is_duplicate (Example_env.image "C") s = false ∧
  map data (queue (ram_buffer s)) = [Example_env.image "C"] ∧
  map data (queue (ram_buffer s')) = [Example_env.image "C"; Example_env.image "C"].
Proof.
  intros two self s s'.
  assert (full (ram_buffer self) = true) as Hfull by (vm_compute; reflexivity).
  assert (Md5.hexdigest (list_byte_of_string "C") ∉ image_hashes self) as Hnew.
  { apply (bool_decide_unpack _). vm_compute. exact I. }
  destruct (identical_image_admitted_after_forced_flush Example_env.calm Example_env.calm
              (list_byte_of_string "C") true true self
              ".\screenshots\2023-11-14_Tue" ".\screenshots\2023-11-14_Tue" Hfull Hnew)
    as (Hq & Hdup & _ & _ & Hq'); [vm_compute; reflexivity | vm_compute; reflexivity |].
  split; [exact Hfull|]. split; [exact Hdup|].
  split; [exact (f_equal (map data) Hq)|].
  assert (1 < maxsize (ram_buffer self)) as Hcap by (vm_compute; reflexivity).
  exact (f_equal (map data) (Hq' Hcap)).
Defined.

(** C2.  The set of seen hashes is not the set of hashes of the queued
    items: after eleven different captures and a resize to ten, the set
    still holds the hash of the capture that was dropped; and after a resize
    to ten and eleven different captures, the eleventh is queued while the
    set is empty. *)
Theorem seen_hashes_differ_from_held_hashes :
  let start := new_BufferManager true ".\screenshots" in
  let shrunk := run start (Example_env.captures Example_env.eleven ++ [Resize 10]) in
  let forced := run start (Resize 10 :: Example_env.captures Example_env.eleven) in
  (qsize (ram_buffer shrunk) = 10 ∧
   size (image_hashes shrunk) = 11%nat ∧
   (Md5.hexdigest (list_byte_of_string "11") ∈ image_hashes shrunk) ∧
   (Md5.hexdigest (list_byte_of_string "11") ∉ held_hashes shrunk) ∧
   (image_hashes shrunk ≠ held_hashes shrunk)) ∧
  (map data (queue (ram_buffer forced)) = [Example_env.image "11"] ∧
   held_hashes forced = {[Md5.hexdigest (list_byte_of_string "11")]} ∧
   image_hashes forced = ∅ ∧
   (image_hashes forced ≠ held_hashes forced)).
Proof.
  intros start shrunk forced.
  split; [split; [|split; [|split; [|split]]] | split; [|split; [|split]]].
  - vm_compute. reflexivity.
  - vm_compute. reflexivity.
  - apply (bool_decide_unpack _). vm_compute. exact I.
  - apply (bool_decide_unpack _). vm_compute. exact I.
  - apply (bool_decide_unpack _). vm_compute. exact I.
  - vm_compute. reflexivity.
  - apply (bool_decide_unpack _). vm_compute. exact I.
  - apply (bool_decide_unpack _). vm_compute. exact I.
  - apply (bool_decide_unpack _). vm_compute. exact I.
Qed.

(** ** One round of the save loop *)

Ltac unfold_round :=
  unfold save_one, try_except, bind, os_makedirs, QPixmap_loadFromData, QPixmap_save,
    add_log, emit, ret, raise, is_Exception, is_PermissionError.

Ltac case_round :=
  repeat (match goal with
          | |- context [match makedirs ?w ?p with _ => _ end] =>
              destruct (makedirs w p) as [[]|] eqn:?
          | |- context [match load_from_data ?w ?p with _ => _ end] =>
              destruct (load_from_data w p) eqn:?
          | |- context [match pixmap_save ?w ?p with _ => _ end] =>
              destruct (pixmap_save w p) eqn:?
          | |- context [if ?b then _ else _] => destruct b
          end; simpl).

(** A round whose directory stage passes and whose pixmap is null does
    nothing else. *)
Lemma save_one_null (w : env) (lg : bool) (it : item) (p : string) :
  write_path w it = Some p →
  load_from_data w (data it) = Null →
  save_one w lg it = (dir_calls w it ++ [LoadFromData (data it)], inr 0).
Proof.
  unfold write_path, dir_calls. intros Hp Hnull. unfold_round.
  destruct (makedirs w (dirname w (filepath it))) as [[]|] eqn:E1; try done; simpl.
  - destruct (makedirs w (user_docs_dir w (date_str it))) eqn:E2; [done|]. simpl.
    rewrite Hnull. reflexivity.
  - rewrite Hnull. reflexivity.
Qed.

(** A round of an item whose pixmap would be null never writes and never
    counts, whatever its directory stage does. *)
Lemma save_one_null_no_write (w : env) (lg : bool) (it : item) :
  load_from_data w (data it) = Null →
  List.filter is_write (fst (save_one w lg it)) = [] ∧ saved_by w lg it = 0.
Proof.
  intros Hnull. unfold saved_by. unfold_round. rewrite Hnull.
  case_round; done.
Qed.

(** C10.  In a flush, an item whose directory stage passes and whose bytes
    load to a null pixmap leaves the queue with the others; its round makes
    its directory, loads the bytes and nothing more: no write, no count, no
    log entry of any level, no print; the rounds of the items before and
    after it are run all the same, and only they are counted. *)
Theorem undecodable_item_is_dropped_silently
    (w : env) (self : BufferManager) (before after : list item) (it : item) (p : string) :
  queue (ram_buffer self) = before ++ it :: after →
  write_path w it = Some p →
  load_from_data w (data it) = Null →
  let lg := log_manager self in
  let others := foldr Z.add 0 (map (saved_by w lg) (before ++ after)) in
  fst (save_one w lg it) = dir_calls w it ++ [LoadFromData (data it)] ∧
  List.filter is_write (fst (save_one w lg it)) = [] ∧
  List.filter is_error_log (fst (save_one w lg it)) = [] ∧
  saved_by w lg it = 0 ∧
  queue (ram_buffer (fst (_save_worker w self))) = [] ∧
  snd (_save_worker w self) =
  flat_map (round_events w lg) before
  ++ round_events w lg it
  ++ flat_map (round_events w lg) after
  ++ [Write FBufferCount; BufferUpdated 0 (max_size self); Write FImageHashes]
  ++ (if 0 <? others then fst (add_log lg INFO (MsgSavedTotal others)) else []).
Proof.
  intros Hq Hp Hnull lg others.
  pose proof (save_one_null w lg it p Hp Hnull) as Hround.
  destruct (save_one_null_no_write w lg it Hnull) as [Hw Hc].
  split; [by rewrite Hround|]. split; [done|]. split.
  { rewrite Hround. unfold dir_calls.
    destruct (makedirs w (dirname w (filepath it))) as [[]|]; reflexivity. }
  split; [done|]. split; [apply _save_worker_queue|].
  rewrite _save_worker_trace by (rewrite Hq; by destruct before).
  rewrite Hq. fold lg.
  rewrite flat_map_app. simpl flat_map.
  rewrite saved_total_app. simpl map. simpl foldr. rewrite Hc.
  subst others. rewrite saved_total_app.
  replace (foldr Z.add 0 (map (saved_by w lg) before) +
           (0 + foldr Z.add 0 (map (saved_by w lg) after)))
    with (foldr Z.add 0 (map (saved_by w lg) before) +
          foldr Z.add 0 (map (saved_by w lg) after)) by lia.
  unfold round_events.
  repeat (rewrite <- app_assoc || rewrite <- app_comm_cons). reflexivity.
Qed.

Lemma undecodable_item_is_dropped_silently_witness :
  let w := Example_env.undecodable in
  let it := Example_env.queued "A" in
  let self := MkBufferManager 100 (MkQueue 100 [it; Example_env.queued "B"])
                              "D:\board" true 2 ∅ in
  queue (ram_buffer self) = [] ++ it :: [Example_env.queued "B"] ∧
  write_path w it = Some (filepath it) ∧
  load_from_data w (data it) = Null ∧
  fst (save_one w true it) = dir_calls w it ++ [LoadFromData (data it)] ∧
  queue (ram_buffer (fst (_save_worker w self))) = [].
Proof.
  intros w it self.
  assert (queue (ram_buffer self) = [] ++ it :: [Example_env.queued "B"]) as Hq
    by reflexivity.
  assert (write_path w it = Some (filepath it)) as Hp by reflexivity.
  assert (load_from_data w (data it) = Null) as Hnull by reflexivity.
  destruct (undecodable_item_is_dropped_silently w self [] [Example_env.queued "B"] it
              (filepath it) Hq Hp Hnull) as (Hround & _ & _ & _ & Hempty & _).
  split; [exact Hq|]. split; [exact Hp|]. split; [exact Hnull|].
  split; [exact Hround | exact Hempty].
Defined.

(** ** Failures while saving *)

(** No round calls the file system more than five times, nor writes more
    than twice. *)
Lemma save_one_bounded (w : env) (lg : bool) (it : item) :
  (length (List.filter is_write (fst (save_one w lg it))) <= 2)%nat ∧
  (length (fs_calls (fst (save_one w lg it))) <= 5)%nat.
Proof.
  unfold fs_calls. unfold_round. case_round; split; simpl; lia.
Qed.

(** What a round does after an exception.  When creating the directory of
    an item is not permitted, the directory is made under the Documents
    directory, and if that fails the item is given up with an ERROR entry;
    when the write raises, the write is made again under the Documents
    directory, and if that fails too the item is given up with an ERROR
    entry; no round writes more than twice.  And the loop runs the round of
    every queued item, whatever the rounds before it met, and leaves the
    queue empty. *)
Lemma fallback_after_an_exception (w : env) (lg : bool) (it : item) :
  let dir := dirname w (filepath it) in
  let user_docs := user_docs_dir w (date_str it) in
  let r := save_one w lg it in
  (makedirs w dir = Some PermissionError →
     (makedirs w user_docs = None →
        write_path w it = Some (join w user_docs (basename w (filepath it))) ∧
        ∃ rest, fst r = Makedirs dir :: Makedirs user_docs
                          :: LoadFromData (data it) :: rest) ∧
     (∀ e, makedirs w user_docs = Some e →
        r = (Makedirs dir :: Makedirs user_docs :: drop_with_error lg e, inr 0))) ∧
  (∀ p e, write_path w it = Some p →
     load_from_data w (data it) = Loaded →
     pixmap_save w p = SaveRaises e →
     let backup_path := join w user_docs (basename w p) in
     let tried := dir_calls w it ++ [LoadFromData (data it); PixmapSave p; Makedirs user_docs] in
     match makedirs w user_docs with
     | Some e' => r = (tried ++ drop_with_error lg e', inr 0)
     | None =>
         match pixmap_save w backup_path with
         | SaveReturns _ =>
             r = (tried ++ PixmapSave backup_path
                    :: fst (add_log lg INFO (MsgSavedFile (basename w backup_path))),
                  inr 1)
         | SaveRaises e' => r = (tried ++ PixmapSave backup_path :: drop_with_error lg e', inr 0)
         end
     end) ∧
  (length (List.filter is_write (fst r)) <= 2)%nat ∧
  (∀ self, queue (ram_buffer self) ≠ [] → log_manager self = lg →
     queue (ram_buffer (fst (_save_worker w self))) = [] ∧
     ∃ tail, snd (_save_worker w self) =
             flat_map (round_events w lg) (queue (ram_buffer self)) ++ tail).
Proof.
  intros dir user_docs r. subst dir user_docs r.
  split; [|split; [|split]].
  - intros Hperm. split.
    + intros Hdocs. split; [unfold write_path; by rewrite Hperm, Hdocs|].
      unfold_round. rewrite Hperm. simpl. rewrite Hdocs. simpl.
      case_round; eexists; reflexivity.
    + intros e Hdocs. unfold drop_with_error. unfold_round. rewrite Hperm. simpl.
      rewrite Hdocs. simpl. destruct lg; reflexivity.
  - intros p e Hp Hload Hsave. cbv zeta. unfold write_path, dir_calls, drop_with_error in *.
    destruct (makedirs w (dirname w (filepath it))) as [[]|] eqn:E1; try done.
    + destruct (makedirs w (user_docs_dir w (date_str it))) eqn:E2; [done|].
      inversion Hp; subst p; clear Hp.
      unfold_round. rewrite E1. simpl. rewrite E2. simpl. rewrite Hload. simpl.
      rewrite Hsave. clear Hsave. simpl. rewrite ?E2. simpl.
      destruct (pixmap_save w _); destruct lg; reflexivity.
    + inversion Hp; subst p; clear Hp.
      unfold_round. rewrite E1. simpl. rewrite Hload. simpl. rewrite Hsave.
      clear Hsave. simpl.
      destruct (makedirs w (user_docs_dir w (date_str it))) eqn:E2; simpl.
      * destruct lg; reflexivity.
      * destruct (pixmap_save w _); destruct lg; reflexivity.
  - apply save_one_bounded.
  - intros self Hq Hlg. split; [apply _save_worker_queue|].
    rewrite _save_worker_trace by done. rewrite Hlg. eexists. reflexivity.
Qed.

Lemma fallback_after_an_exception_example :
  let it := Example_env.queued "A" in
  let docs := "C:\Users\teacher\Documents\SmartBoardScreenshots\2023-11-14_Tue" in
  (makedirs Example_env.locked_save_path (dirname Example_env.locked_save_path (filepath it))
   = Some PermissionError ∧
   makedirs Example_env.locked_save_path docs = None ∧
   write_path Example_env.locked_save_path it
   = Some (Example_env.join docs "2023-11-14-22-13-20.png")) ∧
  (write_path Example_env.write_protected it = Some (filepath it) ∧
   load_from_data Example_env.write_protected (data it) = Loaded ∧
   pixmap_save Example_env.write_protected (filepath it) = SaveRaises PermissionError ∧
   save_one Example_env.write_protected true it =
   ([Makedirs "D:\board\2023-11-14_Tue"; LoadFromData (data it);
     PixmapSave (filepath it); Makedirs docs;
     PixmapSave (Example_env.join docs "2023-11-14-22-13-20.png");
     AddLog INFO (MsgSavedFile "2023-11-14-22-13-20.png")], inr 1)).
Proof.
  intros it docs. split.
  - assert (makedirs Example_env.locked_save_path
              (dirname Example_env.locked_save_path (filepath it))
            = Some PermissionError) as Hperm by reflexivity.
    assert (makedirs Example_env.locked_save_path docs = None) as Hdocs by reflexivity.
    destruct (fallback_after_an_exception Example_env.locked_save_path true it)
      as (Hdir & _).
    destruct (Hdir Hperm) as (Hretry & _).
    destruct (Hretry Hdocs) as (Hpath & _).
    split; [exact Hperm|]. split; [exact Hdocs|]. exact Hpath.
  - assert (write_path Example_env.write_protected it = Some (filepath it)) as Hp
      by reflexivity.
    assert (load_from_data Example_env.write_protected (data it) = Loaded) as Hload
      by reflexivity.
    assert (pixmap_save Example_env.write_protected (filepath it)
            = SaveRaises PermissionError) as Hsave by reflexivity.
    destruct (fallback_after_an_exception Example_env.write_protected true it)
      as (_ & Hwrite & _).
    split; [exact Hp|]. split; [exact Hload|]. split; [exact Hsave|].
    exact (Hwrite (filepath it) PermissionError Hp Hload Hsave).
Defined.

(** C7.  The fallback of a round is reached through an exception only, and
    [QPixmap.save] reports a write that the disk refuses by returning
    [False].  So for an item whose directory can be made and whose write is
    refused, the round makes no second attempt, under the Documents
    directory or anywhere: it writes once, logs the item as saved without
    an ERROR entry and counts it.  And when the directory was not permitted
    and the write under the Documents directory raises, the round goes to
    the Documents directory a second time, creating the directory again
    and writing there again, before the item is given up.  In neither case
    is the fallback tried exactly once. *)
Theorem refused_write_is_not_retried (w : env) (lg : bool) (it : item) :
  let dir := dirname w (filepath it) in
  let user_docs := user_docs_dir w (date_str it) in
  let r := save_one w lg it in
  (makedirs w dir = None →
   load_from_data w (data it) = Loaded →
   pixmap_save w (filepath it) = SaveReturns false →
   r = ([Makedirs dir; LoadFromData (data it); PixmapSave (filepath it)]
          ++ fst (add_log lg INFO (MsgSavedFile (basename w (filepath it)))), inr 1) ∧
   List.filter is_write (fst r) = [PixmapSave (filepath it)] ∧
   List.filter is_error_log (fst r) = []) ∧
  (∀ e, makedirs w dir = Some PermissionError →
     makedirs w user_docs = None →
     load_from_data w (data it) = Loaded →
     pixmap_save w (join w user_docs (basename w (filepath it))) = SaveRaises e →
     let p := join w user_docs (basename w (filepath it)) in
     ∃ rest,
       fst r = [Makedirs dir; Makedirs user_docs; LoadFromData (data it); PixmapSave p;
                Makedirs user_docs; PixmapSave (join w user_docs (basename w p))]
                 ++ rest).
Proof.
  intros dir user_docs r. subst dir user_docs r. split.
  - intros Hdir Hload Hsave.
    assert (save_one w lg it
            = ([Makedirs (dirname w (filepath it)); LoadFromData (data it);
                PixmapSave (filepath it)]
                 ++ fst (add_log lg INFO (MsgSavedFile (basename w (filepath it)))),
               inr 1)) as Hr.
    { unfold_round. rewrite Hdir. simpl. rewrite Hload. simpl. rewrite Hsave. simpl.
      destruct lg; reflexivity. }
    rewrite Hr. split; [done|]. unfold add_log, emit, ret. destruct lg; done.
  - intros e Hdir Hdocs Hload Hsave. cbv zeta.
    unfold_round. rewrite Hdir. simpl. rewrite Hdocs. simpl. rewrite Hload. simpl.
    rewrite Hsave. clear Hsave. simpl. rewrite ?Hdocs. simpl.
    destruct (pixmap_save w _); destruct lg; simpl; eexists; reflexivity.
Qed.

Lemma refused_write_is_not_retried_witness :
  let it := Example_env.queued "A" in
  let self := set_ram_buffer (MkQueue 10 [Example_env.queued "A"; Example_env.queued "B"])
                (new_BufferManager true "D:\board") in
  let docs := "C:\Users\teacher\Documents\SmartBoardScreenshots\2023-11-14_Tue" in
  (makedirs Example_disk.write_refused (dirname Example_disk.write_refused (filepath it))
   = None ∧
   load_from_data Example_disk.write_refused (data it) = Loaded ∧
   pixmap_save Example_disk.write_refused (filepath it) = SaveReturns false ∧
   save_one Example_disk.write_refused true it =
   ([Makedirs "D:\board\2023-11-14_Tue"; LoadFromData (data it);
     PixmapSave (filepath it); AddLog INFO (MsgSavedFile "2023-11-14-22-13-20.png")],
    inr 1) ∧
   List.filter is_error_log (snd (_save_worker Example_disk.write_refused self)) = [] ∧
   List.filter is_write (snd (_save_worker Example_disk.write_refused self))
   = [PixmapSave (filepath it); PixmapSave (filepath it)] ∧
   last (snd (_save_worker Example_disk.write_refused self))
   = Some (AddLog INFO (MsgSavedTotal 2)) ∧
   queue (ram_buffer (fst (_save_worker Example_disk.write_refused self))) = []) ∧
  (makedirs Example_disk.nothing_writable
     (dirname Example_disk.nothing_writable (filepath it)) = Some PermissionError ∧
   makedirs Example_disk.nothing_writable docs = None ∧
   List.filter is_fs_call (fst (save_one Example_disk.nothing_writable true it))
   = [Makedirs "D:\board\2023-11-14_Tue";
      Makedirs docs; PixmapSave (Example_env.join docs "2023-11-14-22-13-20.png");
      Makedirs docs; PixmapSave (Example_env.join docs "2023-11-14-22-13-20.png")]).
Proof.
  intros it self docs. split.
  - assert (makedirs Example_disk.write_refused
              (dirname Example_disk.write_refused (filepath it)) = None) as Hdir
      by reflexivity.
    assert (load_from_data Example_disk.write_refused (data it) = Loaded) as Hload
      by reflexivity.
    assert (pixmap_save Example_disk.write_refused (filepath it) = SaveReturns false)
      as Hsave by reflexivity.
    destruct (refused_write_is_not_retried Example_disk.write_refused true it)
      as (Hrefused & _).
    destruct (Hrefused Hdir Hload Hsave) as (Hround & _).
    split; [exact Hdir|]. split; [exact Hload|]. split; [exact Hsave|].
    split; [exact Hround|]. repeat split; reflexivity.
  - assert (makedirs Example_disk.nothing_writable
              (dirname Example_disk.nothing_writable (filepath it))
            = Some PermissionError) as Hdir by reflexivity.
    assert (makedirs Example_disk.nothing_writable docs = None) as Hdocs by reflexivity.
    assert (load_from_data Example_disk.nothing_writable (data it) = Loaded) as Hload
      by reflexivity.
    assert (pixmap_save Example_disk.nothing_writable
              (join Example_disk.nothing_writable docs
                 (basename Example_disk.nothing_writable (filepath it)))
            = SaveRaises PermissionError) as Hsave by reflexivity.
    destruct (refused_write_is_not_retried Example_disk.nothing_writable true it)
      as (_ & Htwice).
    destruct (Htwice PermissionError Hdir Hdocs Hload Hsave) as (rest & Hrest).
    split; [exact Hdir|]. split; [exact Hdocs|]. reflexivity.
Defined.

(** ** The lock *)

Lemma lock_free_app (t1 t2 : list event) :
  lock_free (t1 ++ t2) = lock_free t1 && lock_free t2.
Proof. apply forallb_app. Qed.

(** Under the lock, a trace that does not touch the lock changes nothing. *)
Lemma lock_respected_held (t rest : list event) :
  lock_free t = true → lock_respected true (t ++ rest) = lock_respected true rest.
Proof.
  induction t as [|e t IH]; intros H; [done|].
  simpl in H. apply andb_true_iff in H as [He Ht].
  destruct e; simpl in *; try done; auto.
Qed.

(** Without the lock, a trace that does not touch the lock and writes is
    a violation. *)
Lemma lock_respected_not_held (t : list event) :
  lock_free t = true → has_write t = true → lock_respected false t = false.
Proof.
  induction t as [|e t IH]; intros Hfree Hw; [done|].
  simpl in Hfree. apply andb_true_iff in Hfree as [He Ht].
  destruct e; simpl in *; try done; auto.
Qed.

Lemma save_one_lock_free (w : env) (lg : bool) (it : item) :
  lock_free (fst (save_one w lg it)) = true.
Proof. unfold_round. case_round; reflexivity. Qed.

Lemma rounds_lock_free (w : env) (lg : bool) (items : list item) :
  lock_free (flat_map (round_events w lg) items) = true.
Proof.
  induction items as [|it rest IH]; [done|].
  change (lock_free (fst (save_one w lg it) ++ flat_map (round_events w lg) rest) = true).
  rewrite lock_free_app, IH, andb_true_r. apply save_one_lock_free.
Qed.

Lemma _save_worker_lock_free (w : env) (self : BufferManager) :
  lock_free (snd (_save_worker w self)) = true.
Proof.
  destruct (queue (ram_buffer self)) eqn:E.
  - by rewrite _save_worker_empty.
  - rewrite _save_worker_trace by (rewrite E; done).
    rewrite !lock_free_app, rounds_lock_free. simpl.
    destruct (0 <? _); [|done]. unfold add_log. destruct (log_manager self); done.
Qed.

Lemma date_dir_for_lock_free (w : env) (save_path date_str : string) :
  lock_free (fst (date_dir_for w save_path date_str)) = true.
Proof.
  unfold date_dir_for, try_except, bind, os_makedirs, emit, ret, raise, is_PermissionError.
  case_round; reflexivity.
Qed.

(** [add_to_buffer] writes under the lock only, the save it may force
    included. *)
Lemma add_to_buffer_lock_respected
    (w : env) (d : image_data) (sm : bool) (self : BufferManager) :
  lock_respected false (snd (fst (add_to_buffer w d sm self))) = true.
Proof.
  unfold add_to_buffer.
  destruct (calculate_image_hash d) as [t_hash image_hash] eqn:Hh.
  assert (lock_free t_hash = true) as Hth.
  { destruct d; simpl in Hh; inversion Hh; done. }
  destruct (truthy image_hash && hash_in image_hash (image_hashes self)).
  { simpl. rewrite lock_respected_held by done.
    unfold add_log. destruct (log_manager self); done. }
  set (s1 := if truthy image_hash then _ else _).
  assert (∃ self1 t_add, s1 = (self1, t_add) ∧ lock_free t_add = true)
    as (self1 & t_add & -> & Hta).
  { subst s1. destruct (truthy image_hash); eauto. }
  set (s2 := if full (ram_buffer self1) then _ else _).
  assert (∃ self2 t_full, s2 = (self2, t_full) ∧ lock_free t_full = true)
    as (self2 & t_full & -> & Htf).
  { subst s2. destruct (full (ram_buffer self1)); [|eauto].
    pose proof (_save_worker_lock_free w self1) as Hw.
    destruct (_save_worker w self1) as [s t]. eauto. }
  pose proof (date_dir_for_lock_free w (save_path self2)
                (if sm then get_date_folder_name w else timestamp_date_folder w)) as Htd.
  destruct (date_dir_for w _ _) as [t_dir r]. simpl in Htd.
  assert (lock_free (t_hash ++ t_add ++ t_full ++ t_dir) = true) as Hpre.
  { by rewrite !lock_free_app, Hth, Hta, Htf, Htd. }
  set (pre := t_hash ++ t_add ++ t_full ++ t_dir) in *. clearbody pre.
  destruct r as [e|date_dir].
  - simpl. rewrite lock_respected_held by done. done.
  - destruct (put _ _); simpl.
    + rewrite <- ?app_assoc. rewrite lock_respected_held by done.
      simpl. unfold add_log. destruct (log_manager self2); done.
    + rewrite <- (app_nil_r pre). by rewrite lock_respected_held.
Qed.

Lemma set_buffer_size_lock_respected (size : Z) (self : BufferManager) :
  lock_respected false (snd (fst (set_buffer_size size self))) = true.
Proof.
  unfold set_buffer_size. destruct (put_all _ _) as [q all_put].
  assert (∀ n rest, lock_respected true (repeat (Write FRamBuffer) n ++ rest)
                    = lock_respected true rest) as Hrep.
  { induction n; intros; simpl; auto. }
  destruct all_put; simpl.
  - rewrite <- ?app_assoc, Hrep. done.
  - rewrite <- (app_nil_r (repeat _ _)), Hrep. done.
Qed.

(** C4.  [_save_worker] itself never takes the lock.  Called from
    [add_to_buffer] it runs under the caller's lock, as every write of
    [add_to_buffer] and [set_buffer_size] does; called from the periodic
    thread or from the scheduled-time check on a queue that is not empty, it
    empties the queue, resets the count and clears the hashes with the lock
    not held. *)
Theorem save_worker_writes_without_the_lock (w : env) (self : BufferManager) :
  queue (ram_buffer self) ≠ [] →
  lock_respected false (snd (_auto_save_round w self)) = false ∧
  lock_respected false (snd (check_save_times w self)) = false ∧
  lock_free (snd (_save_worker w self)) = true ∧
  (∀ d sm, lock_respected false (snd (fst (add_to_buffer w d sm self))) = true) ∧
  (∀ size, lock_respected false (snd (fst (set_buffer_size size self))) = true).
Proof.
  intros Hq.
  assert (lock_respected false (snd (_save_worker w self)) = false) as Hbad.
  { apply lock_respected_not_held; [apply _save_worker_lock_free|].
    rewrite _save_worker_trace by done. unfold has_write.
    rewrite !existsb_app. simpl. by rewrite orb_true_r. }
  split; [exact Hbad|]. split; [exact Hbad|].
  split; [apply _save_worker_lock_free|].
  split; [intros; apply add_to_buffer_lock_respected|].
  intros; apply set_buffer_size_lock_respected.
Qed.

Lemma save_worker_writes_without_the_lock_witness :
  let self := step (new_BufferManager true ".\screenshots")
                   (Add Example_env.calm (Example_env.image "A") true) in
  queue (ram_buffer self) ≠ [] ∧
  lock_respected false (snd (_auto_save_round Example_env.calm self)) = false.
Proof.
  intros self.
  assert (queue (ram_buffer self) ≠ []) as Hq by (vm_compute; discriminate).
  split; [exact Hq|].
  exact (proj1 (save_worker_writes_without_the_lock Example_env.calm self Hq)).
Defined.

(** ** Capturing the foreground window *)

Lemma nonempty_true {A} (l : list A) : l ≠ [] → nonempty l = true.
Proof. destruct l; done. Qed.

(** [capture_foreground_window] never lets an exception out. *)
Lemma capture_foreground_window_returns (os : desktop) (process_names : list string) :
  ∃ r, snd (capture_foreground_window os process_names) = inr r.
Proof.
  unfold capture_foreground_window, _is_target_process, try_except, bind, lift,
    emit, ret, is_Exception.
  destruct (GetForegroundWindow os) as [e|hwnd]; simpl; [eauto|].
  destruct (nonempty process_names); simpl.
  - destruct (GetWindowThreadProcessId os hwnd) as [e|pid]; simpl; [eauto|].
    destruct (Process_name os pid) as [e|name]; simpl; [eauto|].
    destruct (existsb _ _); simpl; [|eauto].
    destruct (GetWindowRect os hwnd) as [e|[[[x y] width] height]]; simpl; [eauto|].
    destruct (grabWindow os _); simpl; eauto.
  - destruct (GetWindowRect os hwnd) as [e|[[[x y] width] height]]; simpl; [eauto|].
    destruct (grabWindow os _); simpl; eauto.
Qed.

(** With process names given, the result is an image exactly when all the
    system calls answer and some entry is contained in the process name. *)
Lemma capture_foreground_window_by_target
    (os : desktop) (process_names : list string) (hwnd pid : Z) (name : string) :
  process_names ≠ [] →
  GetForegroundWindow os = inr hwnd →
  GetWindowThreadProcessId os hwnd = inr pid →
  Process_name os pid = inr name →
  snd (capture_foreground_window os process_names) =
  if existsb (fun entry => contains (target_name_of entry) (lower name)) process_names
  then match GetWindowRect os hwnd with
       | inr (x, y, width, height) =>
           match grabWindow os (Region x y width height) with
           | inr px => inr (Some px)
           | inl _ => inr None
           end
       | inl _ => inr None
       end
  else inr None.
Proof.
  intros Hne Hw Hp Hn.
  unfold capture_foreground_window, _is_target_process, try_except, bind, lift,
    emit, ret, is_Exception.
  rewrite Hw. simpl. rewrite nonempty_true by done. rewrite Hp. simpl.
  rewrite Hn. simpl.
  destruct (existsb _ _); simpl; [|done].
  destruct (GetWindowRect os hwnd) as [e|[[[x y] width] height]]; simpl; [done|].
  destruct (grabWindow os _); simpl; done.
Qed.

(** What the code does.  With process names given,
    [capture_foreground_window] returns an image only if the lower-cased
    name of the foreground window's process contains, as a substring, some
    entry stripped, lower-cased and completed by ".exe"; when the name
    contains no such entry the result is none; and the result is never an
    exception. *)
Lemma foreground_capture_by_containment (os : desktop) (process_names : list string) :
  process_names ≠ [] →
  (∃ r, snd (capture_foreground_window os process_names) = inr r) ∧
  (∀ px, snd (capture_foreground_window os process_names) = inr (Some px) →
     ∃ hwnd pid name entry,
       GetForegroundWindow os = inr hwnd ∧
       GetWindowThreadProcessId os hwnd = inr pid ∧
       Process_name os pid = inr name ∧
       entry ∈ process_names ∧
       contains (target_name_of entry) (lower name) = true) ∧
  (∀ hwnd pid name,
     GetForegroundWindow os = inr hwnd →
     GetWindowThreadProcessId os hwnd = inr pid →
     Process_name os pid = inr name →
     (∀ entry, entry ∈ process_names →
        contains (target_name_of entry) (lower name) = false) →
     snd (capture_foreground_window os process_names) = inr None).
Proof.
  intros Hne. split; [apply capture_foreground_window_returns|]. split.
  - intros px Hpx.
    destruct (GetForegroundWindow os) as [e|hwnd] eqn:Hw.
    { unfold capture_foreground_window, try_except, bind, lift, emit, ret, is_Exception in Hpx.
      rewrite Hw in Hpx. simpl in Hpx. done. }
    destruct (GetWindowThreadProcessId os hwnd) as [e|pid] eqn:Hp.
    { unfold capture_foreground_window, _is_target_process, try_except, bind, lift,
        emit, ret, is_Exception in Hpx.
      rewrite Hw in Hpx. simpl in Hpx. rewrite nonempty_true in Hpx by done.
      rewrite Hp in Hpx. simpl in Hpx. done. }
    destruct (Process_name os pid) as [e|name] eqn:Hn.
    { unfold capture_foreground_window, _is_target_process, try_except, bind, lift,
        emit, ret, is_Exception in Hpx.
      rewrite Hw in Hpx. simpl in Hpx. rewrite nonempty_true in Hpx by done.
      rewrite Hp in Hpx. simpl in Hpx. rewrite Hn in Hpx. simpl in Hpx. done. }
    rewrite (capture_foreground_window_by_target os process_names hwnd pid name)
      in Hpx by done.
    destruct (existsb _ _) eqn:Hex; [|done].
    apply existsb_exists in Hex as (entry & Hin & Hc).
    exists hwnd, pid, name, entry. repeat split; try done.
    by apply list_elem_of_In.
  - intros hwnd pid name Hw Hp Hn Hnone.
    rewrite (capture_foreground_window_by_target os process_names hwnd pid name) by done.
    destruct (existsb _ _) eqn:Hex; [|done].
    apply existsb_exists in Hex as (entry & Hin & Hc).
    apply list_elem_of_In in Hin. rewrite (Hnone entry Hin) in Hc. done.
Qed.

Lemma foreground_capture_by_containment_example :
  ["powerpnt"; " Word "] ≠ [] ∧
  snd (capture_foreground_window (Example_env.foreground "notepad.exe")
         ["powerpnt"; " Word "]) = inr None.
Proof.
  assert (["powerpnt"; " Word "] ≠ ([] : list string)) as Hne by discriminate.
  split; [exact Hne|].
  destruct (foreground_capture_by_containment (Example_env.foreground "notepad.exe")
              ["powerpnt"; " Word "] Hne) as (_ & _ & Hnone).
  apply (Hnone 1001 4242 "notepad.exe"); try reflexivity.
  intros entry Hin. apply list_elem_of_In in Hin.
  destruct Hin as [<- | [<- | []]]; reflexivity.
Defined.

(** The rule of the specification fails: with the entry "word", a
    foreground window of WINWORD.EXE is captured, although "winword.exe"
    is not "word.exe". *)
Lemma foreground_capture_not_by_equal_names :
  ¬ captures_equal_names_only (Example_env.foreground "WINWORD.EXE") ["word"].
Proof.
  intros H.
  destruct (H (Region 0 0 1920 1080) 1001 4242 "WINWORD.EXE")
    as (entry & Hin & Hm); try reflexivity.
  apply list_elem_of_In in Hin. destruct Hin as [<- | []].
  vm_compute in Hm. discriminate.
Qed.

(** C6.  [_is_target_process] tests whether an entry is contained in the
    name of the process, where the window's process is meant: when the
    system calls answer and some entry, stripped, lower-cased and completed
    by ".exe", is a substring of the lower-cased name of the foreground
    window's process, the window is captured, also when the name equals no
    entry; the rule of the specification then fails. *)
Theorem foreground_capture_of_unlisted_process
    (os : desktop) (process_names : list string) (hwnd pid : Z) (name : string)
    (x y width height : Z) (px : pixmap) :
  GetForegroundWindow os = inr hwnd →
  GetWindowThreadProcessId os hwnd = inr pid →
  Process_name os pid = inr name →
  GetWindowRect os hwnd = inr (x, y, width, height) →
  grabWindow os (Region x y width height) = inr px →
  (∃ entry, entry ∈ process_names ∧
            contains (target_name_of entry) (lower name) = true) →
  (∀ entry, entry ∈ process_names → spec_matches name entry = false) →
  snd (capture_foreground_window os process_names) = inr (Some px) ∧
  ¬ captures_equal_names_only os process_names.
Proof.
  intros Hw Hp Hn Hrect Hgrab (entry & Hin & Hc) Hnone.
  assert (process_names ≠ []) as Hne by (intros ->; by apply elem_of_nil in Hin).
  assert (snd (capture_foreground_window os process_names) = inr (Some px)) as Hpx.
  { rewrite (capture_foreground_window_by_target os process_names hwnd pid name) by done.
    assert (existsb (fun entry => contains (target_name_of entry) (lower name))
                    process_names = true) as ->.
    { apply existsb_exists. exists entry. split; [by apply list_elem_of_In|done]. }
    by rewrite Hrect, Hgrab. }
  split; [done|]. intros Hrule.
  destruct (Hrule px hwnd pid name Hw Hp Hn Hpx) as (entry' & Hin' & Hm).
  rewrite (Hnone entry' Hin') in Hm. done.
Qed.

Lemma foreground_capture_of_unlisted_process_witness :
  let os := Example_env.foreground "WINWORD.EXE" in
  (∃ entry, entry ∈ ["word"] ∧
            contains (target_name_of entry) (lower "WINWORD.EXE") = true) ∧
  (∀ entry, entry ∈ ["word"] → spec_matches "WINWORD.EXE" entry = false) ∧
  snd (capture_foreground_window os ["word"]) = inr (Some (Region 0 0 1920 1080)) ∧
  ¬ captures_equal_names_only os ["word"].
Proof.
  intros os.
  assert (∃ entry, entry ∈ ["word"] ∧
                   contains (target_name_of entry) (lower "WINWORD.EXE") = true) as Hc.
  { exists "word". split; [apply list_elem_of_singleton; reflexivity|reflexivity]. }
  assert (∀ entry, entry ∈ ["word"] → spec_matches "WINWORD.EXE" entry = false) as Hnone.
  { intros entry Hin. apply list_elem_of_singleton in Hin. subst entry. reflexivity. }
  split; [exact Hc|]. split; [exact Hnone|].
  exact (foreground_capture_of_unlisted_process os ["word"] 1001 4242 "WINWORD.EXE"
           0 0 1920 1080 (Region 0 0 1920 1080)
           eq_refl eq_refl eq_refl eq_refl eq_refl Hc Hnone).
Defined.

(** ** The capture thread *)

(** A round leaves the loop only through [if self.stop_flag: break]. *)
Lemma tick_body_break (tk : MonitorThread.tick) :
  snd (MonitorThread.tick_body tk) = inr MonitorThread.Break →
  MonitorThread.stop_flag_after_capture tk = true.
Proof.
  unfold MonitorThread.tick_body, bind, emit, ret, MonitorThread.at_point, raise.
  destruct (MonitorThread.stop_flag_after_capture tk); [done|].
  intros H. exfalso. revert H.
  destruct (negb (MonitorThread.capture_enabled tk)).
  { destruct (MonitorThread.fault tk MonitorThread.AtIdleSleep); simpl; done. }
  set (shot := if MonitorThread.foreground_detection tk && _ then _ else _).
  destruct shot as [t_shot [e|pixmap]];
    destruct (MonitorThread.screenshot_manager tk);
    destruct (MonitorThread.fault tk MonitorThread.AtCapture);
    simpl; try done;
    try (destruct pixmap as [p|]; simpl);
    repeat (match goal with
            | |- context [MonitorThread.fault tk ?p] =>
                destruct (MonitorThread.fault tk p); simpl
            end);
    try done;
    destruct (MonitorThread.wait tk _ _) as [t_wait [e'|[]]]; simpl; done.
Qed.

(** C9.  Whatever a round of the capture loop raises, the loop logs it at
    ERROR, emits an error status, sleeps one second and goes on with the
    next round; so as long as no round sees the stop flag set the thread is
    still running after any number of rounds, however many of them raised,
    and every round was begun. *)
Theorem tick_exception_never_stops_the_thread :
  (∀ tk rest t e,
     MonitorThread.stop_flag_at_while tk = false →
     MonitorThread.tick_body tk = (t, inl e) →
     MonitorThread.loop (tk :: rest) =
     (t ++ [LogSignal ERROR (MsgThreadError e); StatusSignal ERROR (MsgThreadError e);
            Msleep 1000]
        ++ fst (MonitorThread.loop rest),
      snd (MonitorThread.loop rest))) ∧
  (∀ ticks,
     Forall MonitorThread.never_stopped ticks →
     snd (MonitorThread.loop ticks) = MonitorThread.Running ∧
     MonitorThread.rounds ticks = length ticks).
Proof.
  split.
  - intros tk rest t e Hstop Hbody. simpl. rewrite Hstop, Hbody.
    destruct (MonitorThread.loop rest). reflexivity.
  - induction ticks as [|tk rest IH]; intros Hall; [done|].
    inversion Hall as [|? ? [Hw Ha] Hrest]; subst.
    destruct (IH Hrest) as [IHs IHr].
    simpl. rewrite Hw.
    pose proof (tick_body_break tk) as Hbreak.
    destruct (MonitorThread.tick_body tk) as [t [e|[]]]; simpl in *.
    + destruct (MonitorThread.loop rest). simpl in *. by rewrite IHr.
    + destruct (MonitorThread.loop rest). simpl in *. by rewrite IHr.
    + rewrite Ha in Hbreak. by specialize (Hbreak eq_refl).
Qed.

Lemma tick_exception_never_stops_the_thread_witness :
  let ticks := [Example_env.failing_tick; Example_env.quiet_tick; Example_env.failing_tick] in
  MonitorThread.stop_flag_at_while Example_env.failing_tick = false ∧
  MonitorThread.tick_body Example_env.failing_tick = ([], inl OSError) ∧
  Forall MonitorThread.never_stopped ticks ∧
  fst (MonitorThread.loop [Example_env.failing_tick]) =
  [LogSignal ERROR (MsgThreadError OSError); StatusSignal ERROR (MsgThreadError OSError);
   Msleep 1000] ∧
  snd (MonitorThread.loop ticks) = MonitorThread.Running ∧
  MonitorThread.rounds ticks = 3%nat.
Proof.
  intros ticks.
  assert (MonitorThread.stop_flag_at_while Example_env.failing_tick = false) as Hstop
    by reflexivity.
  assert (MonitorThread.tick_body Example_env.failing_tick = ([], inl OSError)) as Hbody
    by reflexivity.
  assert (Forall MonitorThread.never_stopped ticks) as Hall
    by (repeat constructor).
  destruct tick_exception_never_stops_the_thread as [Hround Hloop].
  split; [exact Hstop|]. split; [exact Hbody|]. split; [exact Hall|]. split.
  - rewrite (Hround Example_env.failing_tick [] [] OSError Hstop Hbody). reflexivity.
  - exact (Hloop ticks Hall).
Defined.

(** * Further properties of the buffer manager *)

(** ** Flushing *)

(** A flush of an empty queue does nothing at all: no event, and even the
    seen hashes stay; so a second flush right after a flush is a no-op. *)
Theorem save_worker_idempotent (w1 w2 : env) (self : BufferManager) :
  (queue (ram_buffer self) = [] → _save_worker w1 self = (self, [])) ∧
  _save_worker w2 (fst (_save_worker w1 self)) = (fst (_save_worker w1 self), []).
Proof.
  split; [apply _save_worker_empty|].
  apply _save_worker_empty, _save_worker_queue.
Qed.

Lemma with_room_of_room (w : env) (self : BufferManager) :
  full (ram_buffer self) = false → with_room w self = self.
Proof. unfold with_room. by intros ->. Qed.

(** After a flush of a queue that is not empty no image is a duplicate any
    more: whatever was seen before, the next capture is queued, alone. *)
Theorem flush_forgets_seen_images
    (w w' : env) (self : BufferManager) (d : image_data) (sm : bool) (date_dir : string) :
  queue (ram_buffer self) ≠ [] →
  snd (date_dir_for w' (save_path self) (date_str_of w' sm)) = inr date_dir →
  let s := fst (_save_worker w self) in
  image_hashes s = ∅ ∧
  is_duplicate d s = false ∧
  queue (ram_buffer (step s (Add w' d sm))) = [new_item w' d sm date_dir].
Proof.
  intros Hq Hdir s. subst s. rewrite _save_worker_drains by done.
  set (s := MkBufferManager _ _ _ _ _ _).
  assert (is_duplicate d s = false) as Hdup.
  { unfold is_duplicate, hash_in. cbv zeta.
    destruct (snd (calculate_image_hash d)) as [h|]; [|apply andb_false_r].
    rewrite (bool_decide_eq_false_2 (h ∈ image_hashes s)) by set_solver.
    apply andb_false_r. }
  split; [done|]. split; [done|].
  pose proof (add_to_buffer_cases w' d sm s) as H. cbv zeta in H. rewrite Hdup in H.
  assert (with_room w' (with_hash d s) = with_hash d s) as Hroom.
  { apply with_room_of_room. destruct (with_hash_buffer d s) as [-> _].
    apply full_empty_queue. }
  rewrite Hroom in H.
  assert (save_path (with_hash d s) = save_path self) as Hp.
  { unfold with_hash. destruct (truthy _); done. }
  rewrite Hp, Hdir in H. destruct H as [Hs _].
  unfold step. rewrite Hs. simpl.
  destruct (with_hash_buffer d s) as [-> _]. reflexivity.
Qed.

Lemma flush_forgets_seen_images_witness :
  let self := step (new_BufferManager true ".\screenshots")
                   (Add Example_env.calm (Example_env.image "A") true) in
  let s := fst (_save_worker Example_env.calm self) in
  queue (ram_buffer self) ≠ [] ∧
  is_duplicate (Example_env.image "A") self = true ∧
  is_duplicate (Example_env.image "A") s = false ∧
  map data (queue (ram_buffer (step s (Add Example_env.calm (Example_env.image "A") true))))
  = [Example_env.image "A"].
Proof.
  intros self s.
  assert (queue (ram_buffer self) ≠ []) as Hq by (vm_compute; discriminate).
  destruct (flush_forgets_seen_images Example_env.calm Example_env.calm self
              (Example_env.image "A") true ".\screenshots\2023-11-14_Tue" Hq)
    as (_ & Hdup & Hqueue); [vm_compute; reflexivity|].
  split; [exact Hq|]. split; [vm_compute; reflexivity|]. split; [exact Hdup|].
  exact (f_equal (map data) Hqueue).
Defined.

(** ** The order of the queue *)

(** [add_to_buffer] of a new image on a queue with room. *)
Lemma add_fresh_with_room
    (w : env) (b : list Byte.byte) (sm : bool) (self : BufferManager) :
  full (ram_buffer self) = false →
  Md5.hexdigest b ∉ image_hashes self →
  makedirs w (join w (save_path self) (date_str_of w sm)) = None →
  step self (Add w (Bytes b) sm) =
  MkBufferManager (max_size self)
    (MkQueue (maxsize (ram_buffer self))
             (queue (ram_buffer self)
                ++ [new_item w (Bytes b) sm (join w (save_path self) (date_str_of w sm))]))
    (save_path self) (log_manager self)
    (qsize (ram_buffer self) + 1)
    ({[Md5.hexdigest b]} ∪ image_hashes self).
Proof.
  intros Hfull Hnew Hdir.
  pose proof (add_to_buffer_cases w (Bytes b) sm self) as H. cbv zeta in H.
  rewrite is_duplicate_bytes, bool_decide_eq_false_2 in H by done.
  assert (with_hash (Bytes b) self =
          set_image_hashes ({[Md5.hexdigest b]} ∪ image_hashes self) self) as Hwh.
  { unfold with_hash. simpl calculate_image_hash. cbv zeta.
    change (snd ([], Some (Md5.hexdigest b))) with (Some (Md5.hexdigest b)).
    by rewrite truthy_md5. }
  rewrite Hwh in H. rewrite with_room_of_room in H by done.
  simpl save_path in H. rewrite date_dir_for_created in H by done.
  simpl in H. destruct H as [Hs _]. unfold step. rewrite Hs.
  unfold set_buffer_count, set_ram_buffer, set_image_hashes, qsize. simpl.
  f_equal. rewrite length_app. simpl. lia.
Qed.

Lemma room_not_full (q : Queue) (n : Z) :
  0 < n →
  (0 < maxsize q → qsize q + n <= maxsize q) →
  full q = false.
Proof.
  intros Hn Hroom. unfold full. destruct (0 <? maxsize q) eqn:E; [|done].
  apply Z.ltb_lt in E. specialize (Hroom E). simpl. apply Z.leb_gt. lia.
Qed.

Lemma adds_queue (captures : list (env * list Byte.byte * bool)) (self : BufferManager) :
  NoDup (map digest_of captures) →
  Forall (fun c => digest_of c ∉ image_hashes self) captures →
  Forall (dir_ready (save_path self)) captures →
  (0 < maxsize (ram_buffer self) →
   qsize (ram_buffer self) + Z.of_nat (length captures) <= maxsize (ram_buffer self)) →
  queue (ram_buffer (run self (adds captures)))
  = queue (ram_buffer self) ++ map (item_of (save_path self)) captures ∧
  image_hashes (run self (adds captures))
  = list_to_set (map digest_of captures) ∪ image_hashes self ∧
  log_manager (run self (adds captures)) = log_manager self.
Proof.
  revert self. induction captures as [|[[w b] sm] rest IH]; intros self Hnd Hnew Hdir Hroom.
  { simpl. rewrite app_nil_r. split; [done|]. split; [set_solver|done]. }
  simpl in Hnd. apply NoDup_cons_1_1 in Hnd as Hb. apply NoDup_cons_1_2 in Hnd.
  apply Forall_cons_1 in Hnew as [Hbnew Hnew]. apply Forall_cons_1 in Hdir as [Hbdir Hdir].
  unfold digest_of in Hbnew. simpl in Hbnew, Hbdir.
  assert (full (ram_buffer self) = false) as Hfull.
  { apply (room_not_full _ (Z.of_nat (length ((w, b, sm) :: rest)))); [simpl; lia|done]. }
  change (run self (adds ((w, b, sm) :: rest)))
    with (run (step self (Add w (Bytes b) sm)) (adds rest)).
  rewrite (add_fresh_with_room w b sm self) by done.
  set (s1 := MkBufferManager _ _ _ _ _ _).
  destruct (IH s1) as (Hq & Hh & Hl).
  - done.
  - apply Forall_forall. intros c Hc. subst s1. simpl.
    rewrite Forall_forall in Hnew. specialize (Hnew c Hc).
    assert (digest_of c ≠ Md5.hexdigest b).
    { intros E. apply Hb. change (digest_of (w, b, sm)) with (Md5.hexdigest b).
      rewrite <- E. apply list_elem_of_fmap. eauto. }
    set_solver.
  - done.
  - subst s1. unfold qsize in *. simpl in *. rewrite length_app. simpl.
    intros Hpos. specialize (Hroom Hpos). lia.
  - rewrite Hq, Hh, Hl. subst s1. simpl. rewrite <- app_assoc. simpl.
    split; [done|]. split; [|done]. unfold digest_of at 2. simpl. set_solver.
Qed.

(** Captures with different content, none of them seen before, added to a
    queue that has room for them, are queued in the order of the Adds, behind
    what was queued; and a flush writes the queue oldest first. *)
Theorem adds_keep_capture_order
    (captures : list (env * list Byte.byte * bool)) (self : BufferManager) (w : env) :
  NoDup (map digest_of captures) →
  Forall (fun c => digest_of c ∉ image_hashes self) captures →
  Forall (dir_ready (save_path self)) captures →
  (0 < maxsize (ram_buffer self) →
   qsize (ram_buffer self) + Z.of_nat (length captures) <= maxsize (ram_buffer self)) →
  let s := run self (adds captures) in
  queue (ram_buffer s)
  = queue (ram_buffer self) ++ map (item_of (save_path self)) captures ∧
  map data (queue (ram_buffer s))
  = map data (queue (ram_buffer self)) ++ map (fun c => Bytes (snd (fst c))) captures ∧
  ∃ tail, snd (_save_worker w s)
          = flat_map (round_events w (log_manager self))
                     (queue (ram_buffer self) ++ map (item_of (save_path self)) captures)
            ++ tail.
Proof.
  intros Hnd Hnew Hdir Hroom s.
  destruct (adds_queue captures self Hnd Hnew Hdir Hroom) as (Hq & _ & Hl).
  fold s in Hq, Hl. split; [done|]. split.
  - rewrite Hq, map_app, map_map. f_equal. apply map_ext. by intros [[? ?] ?].
  - destruct (queue (ram_buffer s)) eqn:E.
    + rewrite _save_worker_empty by done. rewrite <- Hq. by exists [].
    + rewrite _save_worker_trace by (rewrite E; done). rewrite E, <- Hq, Hl.
      eexists. reflexivity.
Qed.

Lemma adds_keep_capture_order_witness :
  let captures := [(Example_env.calm, list_byte_of_string "A", true);
                   (Example_env.calm, list_byte_of_string "B", false);
                   (Example_env.calm, list_byte_of_string "C", true)] in
  let self := new_BufferManager true ".\screenshots" in
  NoDup (map digest_of captures) ∧
  map data (queue (ram_buffer (run self (adds captures))))
  = [Example_env.image "A"; Example_env.image "B"; Example_env.image "C"].
Proof.
  intros captures self.
  assert (NoDup (map digest_of captures)) as Hnd.
  { apply (bool_decide_unpack _). vm_compute. exact I. }
  assert (Forall (fun c => digest_of c ∉ image_hashes self) captures) as Hnew.
  { repeat constructor; set_solver. }
  assert (Forall (dir_ready (save_path self)) captures) as Hdir.
  { repeat constructor. }
  split; [exact Hnd|].
  refine (proj1 (proj2 (adds_keep_capture_order captures self Example_env.calm
                          Hnd Hnew Hdir _))).
  intros _. vm_compute. discriminate.
Defined.

(** ** What the queue holds *)

(** [put_all] queues a prefix of the items. *)
Lemma put_all_prefix (items held : list item) (n : Z) :
  ∃ k, queue (fst (put_all (MkQueue n held) items)) = held ++ take k items.
Proof.
  revert held. induction items as [|x rest IH]; intros held; simpl.
  { exists 0%nat. by rewrite app_nil_r. }
  unfold put. destruct (full (MkQueue n held)); simpl.
  - exists 0%nat. by rewrite app_nil_r.
  - destruct (IH (held ++ [x])) as [k Hk]. exists (S k).
    rewrite Hk, <- app_assoc. reflexivity.
Qed.

Lemma set_buffer_size_queue (size : Z) (self : BufferManager) :
  ∃ k, queue (ram_buffer (step self (Resize size))) = take k (queue (ram_buffer self)).
Proof.
  unfold step, set_buffer_size. simpl.
  destruct (put_all_prefix (slice_to (queue (ram_buffer self)) size) [] size) as [k Hk].
  destruct (put_all _ _) as [q all_put]. simpl in Hk.
  assert (∃ j, slice_to (queue (ram_buffer self)) size = take j (queue (ram_buffer self)))
    as [j Hj].
  { unfold slice_to. destruct (0 <=? size); eauto. }
  rewrite Hj, take_take in Hk. exists (k `min` j)%nat.
  destruct all_put; simpl; exact Hk.
Qed.

Lemma with_room_queue (w : env) (self : BufferManager) :
  queue (ram_buffer (with_room w self)) = queue (ram_buffer self) ∨
  queue (ram_buffer (with_room w self)) = [].
Proof.
  unfold with_room. destruct (full (ram_buffer self)); [|by left].
  right. apply _save_worker_queue.
Qed.

(** Whatever the calls, every queued item carries the hash of its own
    data: the MD5 digest of its bytes, or none when its data cannot be
    hashed. *)
Theorem queued_hashes_are_consistent (self : BufferManager) (ops : list op) :
  hash_consistent self → hash_consistent (run self ops).
Proof.
  revert self. induction ops as [|o rest IH]; intros self Hc; [done|].
  simpl. apply IH. clear IH. unfold hash_consistent in *.
  destruct o as [w d sm | w | size].
  - simpl. pose proof (add_to_buffer_cases w d sm self) as H. cbv zeta in H.
    assert (Forall (fun it => hash it = snd (calculate_image_hash (data it)))
                   (queue (ram_buffer (with_room w (with_hash d self))))) as Hc2.
    { destruct (with_room_queue w (with_hash d self)) as [-> | ->]; [|constructor].
      by destruct (with_hash_buffer d self) as [-> _]. }
    destruct (is_duplicate d self); [destruct H as [-> _]; done|].
    destruct (snd (date_dir_for _ _ _)); destruct H as [-> _]; [done|].
    simpl. apply Forall_app. split; [done|]. by repeat constructor.
  - simpl. destruct (_save_worker_queue w self) as [-> _]. constructor.
  - destruct (set_buffer_size_queue size self) as [k ->]. by apply Forall_take.
Qed.

Lemma queued_hashes_are_consistent_witness :
  let self := new_BufferManager true ".\screenshots" in
  let ops := [Add Example_env.calm (Example_env.image "A") true;
              Add Example_env.calm NotBytes true; Resize 1;
              Add Example_env.calm (Example_env.image "B") true] in
  hash_consistent self ∧
  map hash (queue (ram_buffer (run self ops)))
  = [Some (Md5.hexdigest (list_byte_of_string "B"))] ∧
  hash_consistent (run self ops).
Proof.
  intros self ops.
  assert (hash_consistent self) as Hc by constructor.
  split; [exact Hc|]. split; [vm_compute; reflexivity|].
  exact (queued_hashes_are_consistent self ops Hc).
Defined.

(** ** The count *)

(** As long as the buffer is not resized, [buffer_count], which
    [get_buffer_info] and the [buffer_updated] signal report, is the number
    of queued items. *)
Theorem buffer_count_tracks_queue (self : BufferManager) (ops : list op) :
  count_consistent self →
  forallb (fun o => negb (is_resize o)) ops = true →
  count_consistent (run self ops) ∧
  fst (fst (fst (get_buffer_info (run self ops)))) = qsize (ram_buffer (run self ops)).
Proof.
  intros Hc Hops.
  assert (count_consistent (run self ops)) as Hrun; [|by split].
  revert self Hc. induction ops as [|o rest IH]; intros self Hc; [done|].
  simpl in Hops. apply andb_true_iff in Hops as [Ho Hrest].
  simpl. apply IH; [done|]. clear IH. unfold count_consistent in *.
  destruct o as [w d sm | w | size]; [| |done].
  - simpl. pose proof (add_to_buffer_cases w d sm self) as H. cbv zeta in H.
    assert (buffer_count (with_room w (with_hash d self))
            = qsize (ram_buffer (with_room w (with_hash d self)))) as Hc2.
    { unfold with_room. destruct (full (ram_buffer (with_hash d self))) eqn:E.
      - destruct (queue (ram_buffer (with_hash d self))) eqn:Eq.
        + apply full_nonempty in E. done.
        + rewrite _save_worker_drains by (rewrite Eq; done). reflexivity.
      - unfold with_hash. destruct (truthy _); done. }
    destruct (is_duplicate d self); [destruct H as [-> _]; done|].
    destruct (snd (date_dir_for _ _ _)); destruct H as [-> _]; done.
  - simpl. destruct (queue (ram_buffer self)) eqn:Eq.
    + by rewrite _save_worker_empty.
    + rewrite _save_worker_drains by (rewrite Eq; done). reflexivity.
Qed.

Lemma buffer_count_tracks_queue_witness :
  let self := new_BufferManager true ".\screenshots" in
  let ops := [Add Example_env.calm (Example_env.image "A") true;
              Add Example_env.calm (Example_env.image "A") true;
              Add Example_env.calm (Example_env.image "B") true] in
  count_consistent self ∧
  fst (fst (fst (get_buffer_info (run self ops)))) = 2.
Proof.
  intros self ops.
  assert (count_consistent self) as Hc by reflexivity.
  split; [exact Hc|].
  destruct (buffer_count_tracks_queue self ops Hc eq_refl) as [_ ->].
  vm_compute. reflexivity.
Defined.

(** [set_buffer_size] does not touch [buffer_count]: after a resize that
    drops items the count reported is the old number of items, above the
    new capacity, until the next Add or flush sets it again. *)
Theorem resize_leaves_count_stale (self : BufferManager) (size : Z) :
  count_consistent self →
  0 < size < qsize (ram_buffer self) →
  let s := step self (Resize size) in
  qsize (ram_buffer s) = size ∧
  max_size s = size ∧
  buffer_count s = qsize (ram_buffer self) ∧
  fst (fst (get_buffer_info s)) = (qsize (ram_buffer self), size) ∧
  max_size s < buffer_count s.
Proof.
  intros Hc [Hpos Hlt] s. subst s. unfold step.
  rewrite set_buffer_size_result by done. unfold get_buffer_info, qsize in *. simpl.
  rewrite length_take. unfold count_consistent, qsize in Hc. rewrite Hc.
  repeat split; lia.
Qed.

Lemma resize_leaves_count_stale_witness :
  let self := run (new_BufferManager true ".\screenshots")
                  (Example_env.captures Example_env.eleven) in
  count_consistent self ∧ 0 < 10 < qsize (ram_buffer self) ∧
  fst (fst (get_buffer_info (step self (Resize 10)))) = (11, 10).
Proof.
  intros self.
  assert (count_consistent self) as Hc by (vm_compute; reflexivity).
  assert (0 < 10 < qsize (ram_buffer self)) as Hsize by (vm_compute; split; reflexivity).
  destruct (resize_leaves_count_stale self 10 Hc Hsize) as (_ & _ & _ & Hinfo & _).
  split; [exact Hc|]. split; [exact Hsize|]. rewrite Hinfo. vm_compute. reflexivity.
Defined.

(** ** An Add that fails *)

(** When the date directory of a new image cannot be made, [add_to_buffer]
    raises after it has recorded the hash: the image is not queued, and
    every later Add of the same bytes is skipped as a duplicate, so the
    image is never saved unless a flush of other items clears the hashes
    first; a flush of the empty queue does not. *)
Theorem failed_add_blocks_retry
    (w w' : env) (b : list Byte.byte) (sm sm' : bool) (self : BufferManager) (e : exn) :
  full (ram_buffer self) = false →
  Md5.hexdigest b ∉ image_hashes self →
  snd (date_dir_for w (save_path self) (date_str_of w sm)) = inl e →
  let s := step self (Add w (Bytes b) sm) in
  snd (add_to_buffer w (Bytes b) sm self) = Raised e ∧
  queue (ram_buffer s) = queue (ram_buffer self) ∧
  Md5.hexdigest b ∈ image_hashes s ∧
  step s (Add w' (Bytes b) sm') = s ∧
  (queue (ram_buffer self) = [] → fst (_save_worker w' s) = s).
Proof.
  intros Hfull Hnew Hdir s.
  pose proof (add_to_buffer_cases w (Bytes b) sm self) as H. cbv zeta in H.
  rewrite is_duplicate_bytes, bool_decide_eq_false_2 in H by done.
  assert (ram_buffer (with_hash (Bytes b) self) = ram_buffer self) as Hb
    by apply with_hash_buffer.
  assert (save_path (with_hash (Bytes b) self) = save_path self) as Hp.
  { unfold with_hash. destruct (truthy _); done. }
  rewrite with_room_of_room in H by (by rewrite Hb).
  rewrite Hp, Hdir in H. destruct H as [Hs Ho].
  assert (s = with_hash (Bytes b) self) as -> by exact Hs.
  split; [done|]. split; [by rewrite Hb|]. split; [apply with_hash_records|]. split.
  - pose proof (add_to_buffer_cases w' (Bytes b) sm' (with_hash (Bytes b) self)) as H.
    cbv zeta in H. rewrite is_duplicate_bytes in H.
    rewrite bool_decide_eq_true_2 in H by apply with_hash_records.
    destruct H as [H _]. exact H.
  - intros Hq. rewrite _save_worker_empty; [done|]. by rewrite Hb.
Qed.

Lemma failed_add_blocks_retry_witness :
  let refusing :=
    Env 1700000000 "2023-11-14_Tue" "2023-11-14_Tue" "2023-11-14-22-13-20.png"
        "C:\Users\teacher" Example_env.join Example_env.dirname Example_env.basename
        (fun _ => Some OSError) (fun _ => Loaded) (fun _ => SaveReturns true) in
  let self := new_BufferManager true ".\screenshots" in
  let s := step self (Add refusing (Example_env.image "A") true) in
  snd (date_dir_for refusing (save_path self) (date_str_of refusing true)) = inl OSError ∧
  queue (ram_buffer s) = [] ∧
  step s (Add Example_env.calm (Example_env.image "A") true) = s.
Proof.
  intros refusing self s.
  assert (snd (date_dir_for refusing (save_path self) (date_str_of refusing true))
          = inl OSError) as Hdir by reflexivity.
  assert (Md5.hexdigest (list_byte_of_string "A") ∉ image_hashes self) as Hnew
    by set_solver.
  destruct (failed_add_blocks_retry refusing Example_env.calm (list_byte_of_string "A")
              true true self OSError eq_refl Hnew Hdir) as (_ & Hq & _ & Hskip & _).
  split; [exact Hdir|]. split; [exact Hq | exact Hskip].
Defined.

(** ** Waiting in the queue *)

Lemma put_all_unbounded (n : Z) (items held : list item) :
  (n <= 0) → put_all (MkQueue n held) items = (MkQueue n (held ++ items), true).
Proof.
  intros Hn. revert held. induction items as [|x rest IH]; intros held; simpl.
  - by rewrite app_nil_r.
  - unfold put, full. simpl.
    assert ((0 <? n) = false) as -> by (apply Z.ltb_ge; lia). simpl.
    rewrite IH, <- app_assoc. reflexivity.
Qed.

(** [Queue.put] is called with its default [block=True], under the lock;
    neither [add_to_buffer] nor [set_buffer_size] ever reaches it with a
    full queue, whatever the size asked for: no call waits there. *)
Theorem buffer_calls_never_block
    (w : env) (d : image_data) (sm : bool) (size : Z) (self : BufferManager) :
  snd (add_to_buffer w d sm self) ≠ Blocked ∧
  snd (set_buffer_size size self) ≠ Blocked.
Proof.
  split; [apply add_to_buffer_never_blocks|].
  destruct (Z_lt_le_dec 0 size) as [Hpos | Hneg].
  - by rewrite set_buffer_size_result.
  - unfold set_buffer_size. rewrite put_all_unbounded by done. done.
Qed.

(** ** A size that is not positive *)

Lemma full_unbounded (q : Queue) : (maxsize q <= 0) → full q = false.
Proof.
  intros H. unfold full. assert ((0 <? maxsize q) = false) as -> by (apply Z.ltb_ge; lia).
  done.
Qed.

Lemma step_keeps_maxsize (self : BufferManager) (o : op) :
  is_resize o = false →
  maxsize (ram_buffer (step self o)) = maxsize (ram_buffer self).
Proof.
  intros Ho. destruct o as [w d sm | w | size]; [| |done].
  - simpl. pose proof (add_to_buffer_cases w d sm self) as H. cbv zeta in H.
    assert (maxsize (ram_buffer (with_room w (with_hash d self)))
            = maxsize (ram_buffer self)) as Hm.
    { unfold with_room. destruct (full _).
      - destruct (_save_worker_queue w (with_hash d self)) as (_ & -> & _).
        by destruct (with_hash_buffer d self) as [-> _].
      - by destruct (with_hash_buffer d self) as [-> _]. }
    destruct (is_duplicate d self); [destruct H as [-> _]; done|].
    destruct (snd (date_dir_for _ _ _)); destruct H as [-> _]; done.
  - simpl. apply _save_worker_queue.
Qed.

(** [set_buffer_size] with a size of zero or less builds [Queue(maxsize=size)],
    which is unbounded: the queue is never full again, no Add forces a
    flush, and with size zero the queue, emptied by the resize, grows past
    the capacity recorded in [max_size] with the first capture. *)
Theorem nonpositive_size_unbounds_queue (self : BufferManager) (size : Z) (ops : list op) :
  (size <= 0) →
  forallb (fun o => negb (is_resize o)) ops = true →
  let s := step self (Resize size) in
  max_size s = size ∧
  queue (ram_buffer s) = slice_to (queue (ram_buffer self)) size ∧
  full (ram_buffer (run s ops)) = false ∧
  (∀ w b sm, size = 0 →
     Md5.hexdigest b ∉ image_hashes self →
     makedirs w (join w (save_path self) (date_str_of w sm)) = None →
     qsize (ram_buffer (step s (Add w (Bytes b) sm))) = 1 ∧
     max_size (step s (Add w (Bytes b) sm)) = 0).
Proof.
  intros Hsize Hops s.
  assert (s = MkBufferManager size (MkQueue size (slice_to (queue (ram_buffer self)) size))
                (save_path self) (log_manager self) (buffer_count self)
                (image_hashes self)) as Hs.
  { subst s. unfold step, set_buffer_size. simpl. by rewrite put_all_unbounded. }
  clearbody s. subst s. set (s := MkBufferManager _ _ _ _ _ _).
  split; [done|]. split; [done|]. split.
  - apply full_unbounded.
    assert (∀ ops s0, forallb (fun o => negb (is_resize o)) ops = true →
              maxsize (ram_buffer (run s0 ops)) = maxsize (ram_buffer s0)) as Hkeep.
    { clear. induction ops as [|o rest IH]; intros s0 H; [done|].
      simpl in H. apply andb_true_iff in H as [Ho Hrest]. simpl.
      rewrite IH by done. apply step_keeps_maxsize. by apply negb_true_iff. }
    rewrite Hkeep by done. done.
  - intros w b sm -> Hnew Hdir.
    rewrite (add_fresh_with_room w b sm s); [done|by apply full_unbounded|done|done].
Qed.

Lemma nonpositive_size_unbounds_queue_witness :
  let self := new_BufferManager true ".\screenshots" in
  let s := step self (Resize 0) in
  let ops := Example_env.captures Example_env.eleven in
  0 <= 0 ∧
  max_size (run s ops) = 0 ∧ qsize (ram_buffer (run s ops)) = 11 ∧
  full (ram_buffer (run s ops)) = false.
Proof.
  intros self s ops.
  destruct (nonpositive_size_unbounds_queue self 0 ops (Z.le_refl 0) eq_refl)
    as (_ & _ & Hfull & _).
  split; [lia|]. split; [vm_compute; reflexivity|]. split; [vm_compute; reflexivity|].
  exact Hfull.
Defined.

(** ** The save path *)

(** [set_save_path] leaves the buffer as it is and sets [save_path] to the
    path asked for, or to the Documents directory: to the latter exactly
    when the write test of the path asked for stops on a
    [PermissionError].  Any other failure of the test is logged and leaves
    the path asked for in place.  The call raises only when the Documents
    directory cannot be made. *)
Theorem set_save_path_result (w : env) (pr : probe) (path : string) (self : BufferManager) :
  let r := set_save_path w pr path self in
  let s := fst (fst r) in
  ram_buffer s = ram_buffer self ∧ image_hashes s = image_hashes self ∧
  (save_path s = path ∨ save_path s = documents_dir w) ∧
  (snd (write_test w pr path) ≠ Some PermissionError →
     save_path s = path ∧ snd r = Returned) ∧
  (snd (write_test w pr path) = Some PermissionError →
     save_path s = documents_dir w ∧
     (snd r = Returned ↔ makedirs w (documents_dir w) = None)) ∧
  (∀ e, snd r = Raised e →
     snd (write_test w pr path) = Some PermissionError ∧
     makedirs w (documents_dir w) = Some e).
Proof.
  intros r s. subst s r. unfold set_save_path, ensure_save_directory. simpl.
  destruct (write_test w pr path) as [t [[]|]] eqn:E; simpl.
  - destruct (makedirs w (documents_dir w)) eqn:Em; simpl.
    + split; [done|]. split; [done|]. split; [by right|]. split; [done|].
      split; [|intros e' He'; split; congruence].
      intros _. split; [done|]. split; intros; discriminate.
    + split; [done|]. split; [done|]. split; [by right|]. split; [done|].
      split; [|intros e' He'; discriminate].
      intros _. done.
  - split; [done|]. split; [done|]. split; [by left|]. split; [done|].
    split; [intros; discriminate | intros e' He'; discriminate].
  - split; [done|]. split; [done|]. split; [by left|]. split; [done|].
    split; [intros; discriminate | intros e' He'; discriminate].
  - split; [done|]. split; [done|]. split; [by left|]. split; [done|].
    split; [intros; discriminate | intros e' He'; discriminate].
Qed.

(** ** The log *)

(** [l[-n:]] for a positive [n]: the last [n] elements, all of them when
    there are fewer. *)
Lemma slice_from_last {A} (l : list A) (n : Z) :
  0 < n → slice_from l (- n) = drop (length l - Z.to_nat n) l.
Proof.
  intros Hn. unfold slice_from.
  assert ((0 <=? - n) = false) as -> by (apply Z.leb_gt; lia).
  f_equal. lia.
Qed.

Lemma drop_last_snoc {A} (m : nat) (all : list A) (x : A) :
  (0 < m)%nat →
  drop (length (drop (length all - m) all ++ [x]) - m) (drop (length all - m) all ++ [x])
  = drop (length (all ++ [x]) - m) (all ++ [x]).
Proof.
  intros Hm. rewrite !length_app, length_drop. simpl.
  destruct (decide (length all < m)%nat) as [Hlt | Hge].
  - replace (length all - m)%nat with 0%nat by lia. simpl.
    replace (length all - 0 + 1 - m)%nat with 0%nat by lia.
    replace (length all + 1 - m)%nat with 0%nat by lia. reflexivity.
  - replace (length all - (length all - m) + 1 - m)%nat with 1%nat by lia.
    replace (length all + 1 - m)%nat with ((length all - m) + 1)%nat by lia.
    rewrite <- drop_drop.
    rewrite (drop_app_le all [x] (length all - m)) by lia. reflexivity.
Qed.

Lemma add_log_last (max : Z) (now level message : string) (all : list LogManager.entry) :
  0 < max →
  LogManager.add_log now level message
       (LogManager.Make (drop (length all - Z.to_nat max) all) max)
  = LogManager.Make (drop (length (all ++ [(now, level, message)]) - Z.to_nat max)
         (all ++ [(now, level, message)])) max.
Proof.
  intros Hmax. unfold LogManager.add_log.
  cbn [LogManager.logs LogManager.max_logs].
  unfold LogManager.entry in *.
  rewrite <- (drop_last_snoc (Z.to_nat max) all (now, level, message)) by lia.
  generalize (drop (length all - Z.to_nat max) all ++ [(now, level, message)]).
  intros held. destruct (max <? _) eqn:E.
  - by rewrite slice_from_last.
  - apply Z.ltb_ge in E.
    replace (length held - Z.to_nat max)%nat with 0%nat by lia. reflexivity.
Qed.

Lemma add_all_last (max : Z) (entries all : list LogManager.entry) :
  0 < max →
  LogManager.add_all entries (LogManager.Make (drop (length all - Z.to_nat max) all) max)
  = LogManager.Make (drop (length (all ++ entries) - Z.to_nat max) (all ++ entries)) max.
Proof.
  intros Hmax. revert all. induction entries as [|[[now level] message] rest IH]; intros all.
  { simpl. by rewrite app_nil_r. }
  change (LogManager.add_all (((now, level, message)) :: rest) ?s)
    with (LogManager.add_all rest (LogManager.add_log now level message s)).
  rewrite add_log_last by done. rewrite IH. by rewrite <- app_assoc.
Qed.

(** With [max_logs] at least one, after any sequence of [add_log] calls
    on a fresh log the log holds the last [max_logs] entries added, oldest
    first, and so never more than [max_logs]. *)
Theorem log_keeps_most_recent (max : Z) (entries : list LogManager.entry) :
  0 < max →
  let log := LogManager.add_all entries (LogManager.new max) in
  LogManager.logs log = drop (length entries - Z.to_nat max) entries ∧
  Z.of_nat (length (LogManager.logs log)) = Z.min max (Z.of_nat (length entries)) ∧
  LogManager.get_recent_logs max log = LogManager.logs log.
Proof.
  intros Hmax log.
  pose proof (add_all_last max entries [] Hmax) as H.
  change (LogManager.Make (drop _ []) max) with (LogManager.new max) in H.
  change ([] ++ entries) with entries in H. fold log in H.
  assert (LogManager.logs log = drop (length entries - Z.to_nat max) entries) as Hlogs
    by (by rewrite H).
  split; [done|]. split.
  - rewrite Hlogs, length_drop. lia.
  - unfold LogManager.get_recent_logs. rewrite Hlogs, length_drop.
    assert ((max <? Z.of_nat (length entries - (length entries - Z.to_nat max))) = false)
      as -> by (apply Z.ltb_ge; lia).
    reflexivity.
Qed.

Lemma log_keeps_most_recent_witness :
  let entries := [("10:00:01", "INFO", "a"); ("10:00:02", "ERROR", "b");
                  ("10:00:03", "INFO", "c")] in
  0 < 2 ∧
  LogManager.logs (LogManager.add_all entries (LogManager.new 2))
  = [("10:00:02", "ERROR", "b"); ("10:00:03", "INFO", "c")].
Proof.
  intros entries.
  assert (0 < 2) as Hmax by lia.
  split; [exact Hmax|].
  exact (proj1 (log_keeps_most_recent 2 entries Hmax)).
Defined.

Lemma add_all_untrimmed (entries held : list LogManager.entry) :
  LogManager.add_all entries (LogManager.Make held 0) = LogManager.Make (held ++ entries) 0.
Proof.
  revert held. induction entries as [|[[now level] message] rest IH]; intros held.
  { simpl. by rewrite app_nil_r. }
  change (LogManager.add_all (((now, level, message)) :: rest) ?s)
    with (LogManager.add_all rest (LogManager.add_log now level message s)).
  assert (LogManager.add_log now level message (LogManager.Make held 0)
          = LogManager.Make (held ++ [(now, level, message)]) 0) as ->.
  { unfold LogManager.add_log. cbn [LogManager.logs LogManager.max_logs].
    destruct (0 <? _); reflexivity. }
  rewrite IH. by rewrite <- app_assoc.
Qed.

(** Zero does not mean none: a log made with [max_logs = 0] is never
    trimmed, because [logs[-0:]] is the whole list, and
    [get_recent_logs(0)] returns the whole log. *)
Theorem log_zero_means_all (entries : list LogManager.entry) (log : LogManager.t) :
  LogManager.logs (LogManager.add_all entries (LogManager.new 0)) = entries ∧
  LogManager.get_recent_logs 0 log = LogManager.logs log.
Proof.
  split.
  - unfold LogManager.new. by rewrite add_all_untrimmed.
  - unfold LogManager.get_recent_logs. destruct (0 <? _); reflexivity.
Qed.

(** For a positive count, [get_recent_logs] returns the last [count]
    entries of the log in their order, or the whole log when it holds no
    more than [count]. *)
Theorem recent_logs_are_the_last (count : Z) (log : LogManager.t) :
  0 < count →
  LogManager.get_recent_logs count log
  = drop (length (LogManager.logs log) - Z.to_nat count) (LogManager.logs log) ∧
  Z.of_nat (length (LogManager.get_recent_logs count log))
  = Z.min count (Z.of_nat (length (LogManager.logs log))).
Proof.
  intros Hc.
  assert (LogManager.get_recent_logs count log
          = drop (length (LogManager.logs log) - Z.to_nat count) (LogManager.logs log))
    as Heq.
  { unfold LogManager.get_recent_logs. destruct (count <? _) eqn:E.
    - by apply slice_from_last.
    - apply Z.ltb_ge in E.
      replace (length (LogManager.logs log) - Z.to_nat count)%nat with 0%nat by lia.
      reflexivity. }
  split; [done|]. rewrite Heq, length_drop. lia.
Qed.

Lemma recent_logs_are_the_last_witness :
  let log := LogManager.add_all [("t1", "INFO", "a"); ("t2", "INFO", "b"); ("t3", "INFO", "c")]
                                (LogManager.new 1000) in
  0 < 2 ∧
  LogManager.get_recent_logs 2 log = [("t2", "INFO", "b"); ("t3", "INFO", "c")].
Proof.
  intros log.
  assert (0 < 2) as Hc by lia.
  split; [exact Hc|].
  exact (proj1 (recent_logs_are_the_last 2 log Hc)).
Defined.

(** ** More on the capture thread *)

Lemma wait_from (tk : MonitorThread.tick) (n i : nat) :
  (∀ j, MonitorThread.fault tk (MonitorThread.AtSleep j) = None) →
  ∃ k, (k ≤ n)%nat ∧
       MonitorThread.wait tk n i = (repeat (Msleep 100) k, inr ()) ∧
       (∀ j, (j < k)%nat → MonitorThread.stop_flag_in_wait tk (i + j) = false) ∧
       ((k < n)%nat → MonitorThread.stop_flag_in_wait tk (i + k) = true).
Proof.
  intros Hok. revert i. induction n as [|n IH]; intros i.
  { exists 0%nat. split; [lia|]. split; [done|]. split; intros; lia. }
  simpl. destruct (MonitorThread.stop_flag_in_wait tk i) eqn:Hflag.
  { exists 0%nat. split; [lia|]. split; [done|]. split; [lia|].
    intros _. by rewrite Nat.add_0_r. }
  destruct (IH (S i)) as (k & Hle & Hwait & Hbefore & Hat).
  exists (S k). split; [lia|]. split; [|split].
  - unfold bind, MonitorThread.at_point, emit, ret. rewrite Hok, Hwait. reflexivity.
  - intros [|j] Hj; [by rewrite Nat.add_0_r|].
    replace (i + S j)%nat with (S i + j)%nat by lia. apply Hbefore. lia.
  - intros Hk. replace (i + S k)%nat with (S i + k)%nat by lia. apply Hat. lia.
Qed.

(** The wait between two captures, [int(interval * 10)] sleeps of 100 ms
    when nothing raises, ends at the first check that sees the stop flag:
    no sleep follows that check, every check before it saw the flag
    unset, and without a stop request all the sleeps are made. *)
Theorem wait_stops_at_first_flag (tk : MonitorThread.tick) (n : nat) :
  (∀ j, MonitorThread.fault tk (MonitorThread.AtSleep j) = None) →
  ∃ k, (k ≤ n)%nat ∧
       MonitorThread.wait tk n 0 = (repeat (Msleep 100) k, inr ()) ∧
       (∀ j, (j < k)%nat → MonitorThread.stop_flag_in_wait tk j = false) ∧
       ((k < n)%nat → MonitorThread.stop_flag_in_wait tk k = true).
Proof. intros Hok. exact (wait_from tk n 0 Hok). Qed.

Lemma wait_stops_at_first_flag_witness :
  let tk := MonitorThread.Tick false true true false [] (Example_env.foreground "explorer.exe")
              (fun _ => None) false 600 (fun i => bool_decide (3 ≤ i)%nat) in
  (∀ j, MonitorThread.fault tk (MonitorThread.AtSleep j) = None) ∧
  ∃ k, (k ≤ 600)%nat ∧
       MonitorThread.wait tk 600 0 = (repeat (Msleep 100) k, inr ()) ∧
       (∀ j, (j < k)%nat → MonitorThread.stop_flag_in_wait tk j = false) ∧
       ((k < 600)%nat → MonitorThread.stop_flag_in_wait tk k = true).
Proof.
  intros tk.
  assert (∀ j, MonitorThread.fault tk (MonitorThread.AtSleep j) = None) as Hok
    by (intros j; reflexivity).
  split; [exact Hok|]. exact (wait_stops_at_first_flag tk 600 Hok).
Defined.

Lemma wait_only_sleeps (tk : MonitorThread.tick) (n i : nat) :
  Forall (fun ev => is_signal ev = false) (fst (MonitorThread.wait tk n i)).
Proof.
  revert i. induction n as [|n IH]; intros i; simpl; [constructor|].
  destruct (MonitorThread.stop_flag_in_wait tk i); [constructor|].
  unfold bind, MonitorThread.at_point, emit, ret, raise.
  destruct (MonitorThread.fault tk _); simpl; [constructor|].
  specialize (IH (S i)). destruct (MonitorThread.wait tk n (S i)) as [t r]. simpl in *.
  by constructor.
Qed.

Lemma capture_prints_only (os : desktop) (process_names : list string) :
  Forall (fun ev => is_signal ev = false) (fst (capture_foreground_window os process_names)) ∧
  Forall (fun ev => is_signal ev = false) (fst (capture_screen os)).
Proof.
  split.
  - unfold capture_foreground_window, _is_target_process, try_except, bind, lift,
      emit, ret, is_Exception.
    destruct (GetForegroundWindow os) as [e|hwnd]; simpl; [by repeat constructor|].
    destruct (nonempty process_names); simpl.
    + destruct (GetWindowThreadProcessId os hwnd) as [e|pid]; simpl;
        [by repeat constructor|].
      destruct (Process_name os pid) as [e|name]; simpl; [by repeat constructor|].
      destruct (existsb _ _); simpl; [|by repeat constructor].
      destruct (GetWindowRect os hwnd) as [e|[[[x y] width] height]]; simpl;
        [by repeat constructor|].
      destruct (grabWindow os _); simpl; by repeat constructor.
    + destruct (GetWindowRect os hwnd) as [e|[[[x y] width] height]]; simpl;
        [by repeat constructor|].
      destruct (grabWindow os _); simpl; by repeat constructor.
  - unfold capture_screen, try_except, bind, lift, emit, ret, is_Exception.
    destruct (grabWindow os _); simpl; by repeat constructor.
Qed.

Lemma capture_of_prints_only (tk : MonitorThread.tick) :
  Forall (fun ev => is_signal ev = false) (fst (capture_of tk)).
Proof.
  unfold capture_of. destruct (MonitorThread.screenshot_manager tk); [|constructor].
  unfold bind, MonitorThread.at_point, raise, ret.
  destruct (MonitorThread.fault tk _); simpl; [constructor|].
  destruct (capture_prints_only (MonitorThread.os tk) (MonitorThread.process_names tk))
    as [Hw Hs].
  destruct (_ && _).
  - destruct (capture_foreground_window _ _) as [t r]. simpl in *. done.
  - destruct (capture_screen _) as [t r]. simpl in *. done.
Qed.

Lemma tick_body_capture (tk : MonitorThread.tick) :
  MonitorThread.capture_enabled tk = true →
  MonitorThread.tick_body tk =
  (let! pixmap := capture_of tk in
   match pixmap with
   | Some p =>
       MonitorThread.at_point tk MonitorThread.AtCaptureSignal >> emit (CaptureSignal p) >>
       MonitorThread.at_point tk MonitorThread.AtLogSignal >>
       emit (LogSignal INFO MsgCaptured)
   | None => ret ()
   end >>
   if MonitorThread.stop_flag_after_capture tk then ret MonitorThread.Break
   else MonitorThread.at_point tk MonitorThread.AtRange >>
        MonitorThread.wait tk (Z.to_nat (MonitorThread.sleeps tk)) 0 >>
        ret MonitorThread.Continue).
Proof. intros He. unfold MonitorThread.tick_body, capture_of. rewrite He. reflexivity. Qed.

(** A capture that gives no image is not reported to the application:
    when the capture call of a round returns [None], because a system
    call failed or because the foreground window is not a target, the
    round emits no capture signal, no log signal and no status signal;
    the failure is printed only. *)
Theorem failed_capture_is_not_reported (tk : MonitorThread.tick) :
  MonitorThread.capture_enabled tk = true →
  snd (capture_of tk) = inr None →
  Forall (fun ev => is_signal ev = false) (fst (MonitorThread.tick_body tk)).
Proof.
  intros He Hnone. rewrite tick_body_capture by done.
  pose proof (capture_of_prints_only tk) as Hcap.
  destruct (capture_of tk) as [t_cap r]. simpl in *. subst r.
  unfold bind, ret, MonitorThread.at_point, raise, emit. simpl.
  destruct (MonitorThread.stop_flag_after_capture tk); simpl.
  { by rewrite !app_nil_r. }
  destruct (MonitorThread.fault tk MonitorThread.AtRange); simpl.
  { by rewrite !app_nil_r. }
  pose proof (wait_only_sleeps tk (Z.to_nat (MonitorThread.sleeps tk)) 0) as Hwait.
  destruct (MonitorThread.wait tk _ _) as [t_wait [e|[]]]; simpl in *;
    rewrite ?app_nil_r; apply Forall_app; done.
Qed.

Lemma failed_capture_is_not_reported_witness :
  let os := Desktop (inr 1001) (fun _ => inr 4242) (fun _ => inr "explorer.exe")
                    (fun _ => inr (0, 0, 1920, 1080)) (fun _ => inl OSError) in
  let tk := MonitorThread.Tick false true true false [] os (fun _ => None) false 3
              (fun _ => false) in
  MonitorThread.capture_enabled tk = true ∧
  snd (capture_of tk) = inr None ∧
  fst (MonitorThread.tick_body tk)
  = [Print (MsgScreenCaptureFailed OSError); Msleep 100; Msleep 100; Msleep 100] ∧
  Forall (fun ev => is_signal ev = false) (fst (MonitorThread.tick_body tk)).
Proof.
  intros os tk.
  assert (MonitorThread.capture_enabled tk = true) as He by reflexivity.
  assert (snd (capture_of tk) = inr None) as Hnone by reflexivity.
  split; [exact He|]. split; [exact Hnone|]. split; [reflexivity|].
  exact (failed_capture_is_not_reported tk He Hnone).
Defined.

Lemma disabled_round (tk : MonitorThread.tick) :
  MonitorThread.capture_enabled tk = false →
  MonitorThread.tick_body tk =
  match MonitorThread.fault tk MonitorThread.AtIdleSleep with
  | Some e => ([], inl e)
  | None => ([Msleep 100], inr MonitorThread.Continue)
  end.
Proof.
  intros Hd. unfold MonitorThread.tick_body. rewrite Hd. simpl.
  unfold bind, MonitorThread.at_point, raise, ret, emit.
  destruct (MonitorThread.fault tk _); reflexivity.
Qed.

(** While the capture is disabled the thread takes no screenshot: whatever
    the rounds raise, no capture signal is ever emitted, and the loop is
    left only through the test of the stop flag at its head. *)
Theorem disabled_capture_emits_no_capture (ticks : list MonitorThread.tick) :
  Forall (fun tk => MonitorThread.capture_enabled tk = false) ticks →
  Forall (fun ev => is_capture_signal ev = false) (fst (MonitorThread.run ticks)) ∧
  (snd (MonitorThread.run ticks) = MonitorThread.Stopped ↔
   Exists (fun tk => MonitorThread.stop_flag_at_while tk = true) ticks).
Proof.
  intros Hall.
  assert (Forall (fun ev => is_capture_signal ev = false) (fst (MonitorThread.loop ticks)) ∧
          (snd (MonitorThread.loop ticks) = MonitorThread.Stopped ↔
           Exists (fun tk => MonitorThread.stop_flag_at_while tk = true) ticks)) as [Ht Hs].
  { induction Hall as [|tk rest Hd _ [IHt IHs]]; simpl.
    { split; [constructor|]. split; [done|]. intros H. inversion H. }
    destruct (MonitorThread.stop_flag_at_while tk) eqn:Hstop.
    { split; [by repeat constructor|]. split; [|done]. intros _. by left. }
    assert (Exists (fun tk => MonitorThread.stop_flag_at_while tk = true) (tk :: rest) ↔
            Exists (fun tk => MonitorThread.stop_flag_at_while tk = true) rest) as Hex.
    { rewrite Exists_cons. split; [intros [H|H]; [congruence|done]|by right]. }
    rewrite Hex. rewrite disabled_round by done.
    destruct (MonitorThread.loop rest) as [t' s]. simpl in *.
    destruct (MonitorThread.fault tk _); simpl; (split; [|done]); by repeat constructor. }
  unfold MonitorThread.run. destruct (MonitorThread.loop ticks) as [t s]. simpl in *.
  split; [by repeat constructor|done].
Qed.

Lemma disabled_capture_emits_no_capture_witness :
  let idle := MonitorThread.Tick false false true true ["powerpnt"]
                (Example_env.foreground "powerpnt.exe") (fun _ => None) true 10
                (fun _ => false) in
  let faulty := MonitorThread.Tick false false true true ["powerpnt"]
                  (Example_env.foreground "powerpnt.exe") (fun _ => Some OSError) true 10
                  (fun _ => false) in
  Forall (fun tk => MonitorThread.capture_enabled tk = false) [idle; faulty; idle] ∧
  MonitorThread.run [idle; faulty; idle]
  = ([LogSignal INFO MsgThreadStarted; StatusSignal INFO MsgThreadStarted;
      Msleep 100;
      LogSignal ERROR (MsgThreadError OSError); StatusSignal ERROR (MsgThreadError OSError);
      Msleep 1000;
      Msleep 100], MonitorThread.Running) ∧
  Forall (fun ev => is_capture_signal ev = false)
         (fst (MonitorThread.run [idle; faulty; idle])).
Proof.
  intros idle faulty.
  assert (Forall (fun tk => MonitorThread.capture_enabled tk = false) [idle; faulty; idle])
    as Hall by (repeat constructor).
  split; [exact Hall|]. split; [reflexivity|].
  exact (proj1 (disabled_capture_emits_no_capture [idle; faulty; idle] Hall)).
Defined.

(** * Further properties of the settings *)

(** ** Text *)

Lemma chars_app (s1 s2 : string) :
  list_ascii_of_string (s1 ++ s2) = list_ascii_of_string s1 ++ list_ascii_of_string s2.
Proof. induction s1 as [|c s1 IH]; simpl; [done|]. by rewrite IH. Qed.

Lemma chars_inj (s1 s2 : string) :
  list_ascii_of_string s1 = list_ascii_of_string s2 → s1 = s2.
Proof.
  intros H. rewrite <- (string_of_list_ascii_of_string s1),
    <- (string_of_list_ascii_of_string s2). by rewrite H.
Qed.

Lemma chars_rev_app (s1 s2 : string) :
  list_ascii_of_string (String.rev_app s1 s2)
  = rev (list_ascii_of_string s1) ++ list_ascii_of_string s2.
Proof.
  revert s2. induction s1 as [|c s1 IH]; intros s2; simpl; [done|].
  rewrite IH. simpl. by rewrite <- app_assoc.
Qed.

Lemma chars_rev (s : string) :
  list_ascii_of_string (String.rev s) = rev (list_ascii_of_string s).
Proof. unfold String.rev. rewrite chars_rev_app. simpl. by rewrite app_nil_r. Qed.

Lemma str_rev_rev (s : string) : String.rev (String.rev s) = s.
Proof. apply chars_inj. by rewrite !chars_rev, rev_involutive. Qed.

Lemma str_rev_app (s1 s2 : string) :
  String.rev (s1 ++ s2) = (String.rev s2 ++ String.rev s1)%string.
Proof. apply chars_inj. by rewrite chars_rev, !chars_app, !chars_rev, rev_app_distr. Qed.

Lemma lstrip_decomp (s : string) : ∃ ws, s = (ws ++ lstrip s)%string.
Proof.
  induction s as [|c s [ws IH]]; simpl; [by exists ""|].
  destruct (isspace c).
  - exists (String c ws). change (String c s = String c (ws ++ lstrip s)%string).
    by f_equal.
  - by exists "".
Qed.

Lemma lstrip_length (s : string) : (String.length (lstrip s) ≤ String.length s)%nat.
Proof. induction s as [|c s IH]; simpl; [done|]. destruct (isspace c); simpl; lia. Qed.

Lemma lstrip_fixed_head (c : ascii) (s : string) :
  lstrip (String c s) = String c s → isspace c = false.
Proof.
  simpl. destruct (isspace c); [|done]. intros H.
  pose proof (lstrip_length s) as Hlen. rewrite H in Hlen. simpl in Hlen. lia.
Qed.

Lemma lstrip_idem (s : string) : lstrip (lstrip s) = lstrip s.
Proof.
  induction s as [|c s IH]; simpl; [done|].
  destruct (isspace c) eqn:E; [done|]. simpl. by rewrite E.
Qed.

Lemma lstrip_chars (c : ascii) (s : string) :
  In c (list_ascii_of_string (lstrip s)) → In c (list_ascii_of_string s).
Proof.
  destruct (lstrip_decomp s) as [ws Hs]. intros H.
  rewrite Hs, chars_app. apply in_or_app. by right.
Qed.

Lemma strip_chars (c : ascii) (s : string) :
  In c (list_ascii_of_string (strip s)) → In c (list_ascii_of_string s).
Proof.
  unfold strip. rewrite chars_rev. intros H. apply in_rev in H.
  apply lstrip_chars in H. rewrite chars_rev in H. apply in_rev in H.
  by apply lstrip_chars.
Qed.

(** [strip] leaves nothing to strip. *)
Lemma strip_idem (s : string) : strip (strip s) = strip s.
Proof.
  unfold strip. set (x := lstrip s). set (y := lstrip (String.rev x)).
  assert (lstrip (String.rev y) = String.rev y) as Hclean.
  { destruct (lstrip_decomp (String.rev x)) as [ws Hws]. fold y in Hws.
    assert (x = (String.rev y ++ String.rev ws)%string) as Hx
      by (by rewrite <- str_rev_app, <- Hws, str_rev_rev).
    assert (lstrip x = x) as Hfix by apply lstrip_idem.
    destruct (String.rev y) as [|c r]; [done|].
    rewrite Hx in Hfix. simpl in Hfix. apply lstrip_fixed_head in Hfix.
    simpl. by rewrite Hfix. }
  rewrite Hclean, str_rev_rev. unfold y. by rewrite lstrip_idem.
Qed.

Lemma str_split_nonempty (sep : ascii) (s : string) : str_split sep s ≠ [].
Proof.
  induction s as [|c s IH]; simpl; [done|].
  destruct (Ascii.eqb c sep); [done|]. by destruct (str_split sep s).
Qed.

(** No piece of a split holds the separator. *)
Lemma str_split_pieces (sep : ascii) (s : string) :
  Forall (fun piece => ¬ In sep (list_ascii_of_string piece)) (str_split sep s).
Proof.
  induction s as [|c s IH]; simpl; [constructor; [simpl; tauto|constructor]|].
  destruct (Ascii.eqb c sep) eqn:E.
  - constructor; [|done]. simpl. tauto.
  - apply Ascii.eqb_neq in E.
    destruct (str_split sep s) as [|piece pieces].
    + constructor; [|constructor]. simpl. intros [H|[]]. congruence.
    + inversion IH as [|? ? Hp Hps]; subst. constructor; [|done].
      simpl. intros [H|H]; [congruence|done].
Qed.

Lemma str_split_single (sep : ascii) (x : string) :
  ¬ In sep (list_ascii_of_string x) → str_split sep x = [x].
Proof.
  induction x as [|c x IH]; simpl; [done|]. intros H.
  destruct (Ascii.eqb c sep) eqn:E.
  { apply Ascii.eqb_eq in E. tauto. }
  rewrite IH by tauto. done.
Qed.

Lemma str_split_piece (sep : ascii) (x rest : string) :
  ¬ In sep (list_ascii_of_string x) →
  str_split sep (x ++ String sep rest) = x :: str_split sep rest.
Proof.
  induction x as [|c x IH]; simpl.
  { intros _. by rewrite Ascii.eqb_refl. }
  intros H. destruct (Ascii.eqb c sep) eqn:E.
  { apply Ascii.eqb_eq in E. tauto. }
  rewrite IH by tauto. done.
Qed.

(** Splitting what was joined gives the pieces back, when there is a
    piece and no piece holds the separator. *)
Lemma str_split_join (sep : ascii) (l : list string) :
  l ≠ [] →
  Forall (fun piece => ¬ In sep (list_ascii_of_string piece)) l →
  str_split sep (str_join (String sep "") l) = l.
Proof.
  intros Hne Hall. induction Hall as [|x rest Hx Hrest IH]; [done|].
  destruct rest as [|y rest'].
  { simpl. by apply str_split_single. }
  change (str_join (String sep "") (x :: y :: rest'))
    with (x ++ String sep (str_join (String sep "") (y :: rest')))%string.
  rewrite str_split_piece by done. f_equal. by apply IH.
Qed.

Lemma str_app_empty (s1 s2 : string) : (s1 ++ s2)%string = "" → s1 = "" ∧ s2 = "".
Proof. destruct s1; simpl; [done|discriminate]. Qed.

Lemma str_join_empty (sep : ascii) (l : list string) :
  str_join (String sep "") l = "" ↔ l = [] ∨ l = [""].
Proof.
  split.
  - destruct l as [|x [|y rest]]; simpl; [by left| intros ->; by right|].
    intros H. apply str_app_empty in H as [_ H]. discriminate.
  - intros [-> | ->]; reflexivity.
Qed.

Lemma str_bool_true (s : string) : str_bool s = true ↔ s ≠ "".
Proof.
  unfold str_bool. destruct (String.eqb_spec s ""); simpl; split; done.
Qed.

(** ** Process names *)

Lemma parse_clean (text : string) :
  Forall (fun name => name ≠ "" ∧ strip name = name ∧
                      ¬ In ","%char (list_ascii_of_string name))
         (parse_process_names text).
Proof.
  unfold parse_process_names. apply List.Forall_forall. intros name Hin.
  apply in_map_iff in Hin as (piece & <- & Hin).
  apply filter_In in Hin as [Hin Hb].
  apply str_bool_true in Hb. split; [done|]. split; [apply strip_idem|].
  intros Hc. apply strip_chars in Hc.
  pose proof (str_split_pieces "," text) as Hall.
  rewrite List.Forall_forall in Hall. exact (Hall piece Hin Hc).
Qed.

(** Every process name the application works with, the current processes
    set by [on_process_changed] and the names [start_monitoring] gives to
    the thread, is a piece of the text between commas with the blanks
    around it removed: it is not empty, it has no blank at either end and
    it holds no comma. *)
Theorem parsed_names_are_clean (text : string) :
  let clean := fun name => name ≠ "" ∧ strip name = name ∧
                           ¬ In ","%char (list_ascii_of_string name) in
  Forall clean (parse_process_names text) ∧
  Forall clean (fst (SmartBoardApp.on_process_changed text)) ∧
  Forall clean (SmartBoardApp.thread_process_names text).
Proof.
  intros clean. split; [apply parse_clean|]. split.
  - unfold SmartBoardApp.on_process_changed.
    destruct (str_bool (strip text)); simpl; [apply parse_clean|constructor].
  - unfold SmartBoardApp.thread_process_names.
    destruct (str_bool text); [apply parse_clean|constructor].
Qed.

Lemma parse_blank (text : string) :
  Forall (fun piece => strip piece = "") (str_split "," text) →
  parse_process_names text = [].
Proof.
  unfold parse_process_names. intros Hall.
  induction Hall as [|piece rest Hp _ IH]; simpl; [done|].
  rewrite Hp. simpl. exact IH.
Qed.

(** A text of commas and blanks only names no process: the thread gets an
    empty list and so captures the whole screen in every round, also with
    the foreground detection on, while the target shown counts zero
    processes. *)
Theorem blank_names_capture_whole_screen (text : string) (tk : MonitorThread.tick) :
  text ≠ "" →
  Forall (fun piece => strip piece = "") (str_split "," text) →
  MonitorThread.process_names tk = SmartBoardApp.thread_process_names text →
  SmartBoardApp.thread_process_names text = [] ∧
  SmartBoardApp.thread_monitor_target text true = SmartBoardApp.ProcessCount 0 ∧
  capture_of tk =
    (if MonitorThread.screenshot_manager tk
     then MonitorThread.at_point tk MonitorThread.AtCapture >>
          capture_screen (MonitorThread.os tk)
     else ret None).
Proof.
  intros Hne Hblank Hnames.
  assert (SmartBoardApp.thread_process_names text = []) as Hnil.
  { unfold SmartBoardApp.thread_process_names.
    destruct (str_bool text); [by apply parse_blank|done]. }
  split; [done|]. split.
  - unfold SmartBoardApp.thread_monitor_target.
    apply str_bool_true in Hne. rewrite Hne. simpl. by rewrite parse_blank.
  - unfold capture_of. rewrite Hnames, Hnil. simpl. by rewrite andb_false_r.
Qed.

Lemma blank_names_capture_whole_screen_witness :
  let tk := MonitorThread.Tick false true true true [] (Example_env.foreground "explorer.exe")
              (fun _ => None) false 10 (fun _ => false) in
  " , ,  " ≠ "" ∧
  Forall (fun piece => strip piece = "") (str_split "," " , ,  ") ∧
  MonitorThread.process_names tk = SmartBoardApp.thread_process_names " , ,  " ∧
  SmartBoardApp.thread_monitor_target " , ,  " true = SmartBoardApp.ProcessCount 0 ∧
  fst (MonitorThread.tick_body tk) = CaptureSignal WholeScreen :: LogSignal INFO MsgCaptured
                                       :: repeat (Msleep 100) 10.
Proof.
  intros tk.
  assert (" , ,  " ≠ "") as Hne by discriminate.
  assert (Forall (fun piece => strip piece = "") (str_split "," " , ,  ")) as Hblank
    by (repeat constructor).
  assert (MonitorThread.process_names tk = SmartBoardApp.thread_process_names " , ,  ")
    as Hnames by reflexivity.
  split; [exact Hne|]. split; [exact Hblank|]. split; [exact Hnames|].
  split; [|reflexivity].
  exact (proj1 (proj2 (blank_names_capture_whole_screen " , ,  " tk Hne Hblank Hnames))).
Defined.

(** ** Lists in the configuration file *)

(** A list of texts without commas survives [save_config] followed by
    [load_config] when the settings store gives back the text it was
    given, with two exceptions: the empty list and the list of one empty
    text are stored as the empty text, for which the default comes back. *)
Theorem config_list_round_trip (value default_value : list string) :
  Forall (fun s => ¬ In ","%char (list_ascii_of_string s)) value →
  (value ≠ [] → value ≠ [""] →
     load_list (QString (save_list value)) default_value = value) ∧
  (value = [] ∨ value = [""] →
     load_list (QString (save_list value)) default_value = default_value).
Proof.
  intros Hall. unfold load_list, save_list. split.
  - intros Hne Hne'.
    assert (str_bool (str_join "," value) = true) as ->.
    { apply str_bool_true. intros H. apply (str_join_empty ",") in H. tauto. }
    by apply (str_split_join ",").
  - intros [-> | ->]; reflexivity.
Qed.

Lemma config_list_round_trip_witness :
  let value := ["09:00"; "12:00"; "15:00"; "18:00"] in
  Forall (fun s => ¬ In ","%char (list_ascii_of_string s)) value ∧
  save_list value = "09:00,12:00,15:00,18:00" ∧
  load_list (QString (save_list value)) [] = value.
Proof.
  intros value.
  assert (Forall (fun s => ¬ In ","%char (list_ascii_of_string s)) value) as Hall.
  { repeat constructor; simpl; intros H;
      repeat (destruct H as [H|H]; [discriminate H|]); exact H. }
  split; [exact Hall|]. split; [reflexivity|].
  apply (proj1 (config_list_round_trip value [] Hall)); discriminate.
Defined.

(** ** The process history *)

Lemma add_to_process_history_step (name : string) (h : list string) :
  NoDup h → (length h ≤ 20)%nat → Forall (fun e => e ≠ "" ∧ strip e = e) h →
  let h' := fst (Gui.add_to_process_history name h) in
  NoDup h' ∧ (length h' ≤ 20)%nat ∧ Forall (fun e => e ≠ "" ∧ strip e = e) h' ∧
  (strip name ≠ "" → strip name ∈ h').
Proof.
  intros Hnd Hlen Hclean. unfold Gui.add_to_process_history.
  destruct (str_bool (strip name)) eqn:Hb; simpl.
  2:{ split; [done|]. split; [done|]. split; [done|].
      intros Hne. apply str_bool_true in Hne. congruence. }
  apply str_bool_true in Hb.
  destruct (bool_decide (strip name ∈ h)) eqn:Hin; simpl.
  { apply bool_decide_eq_true in Hin. done. }
  apply bool_decide_eq_false in Hin.
  assert (NoDup (h ++ [strip name])) as Hnd'.
  { apply NoDup_app. split; [done|]. split; [|apply NoDup_singleton].
    intros x Hx Hx'. apply list_elem_of_singleton in Hx'. by subst. }
  assert (Forall (fun e => e ≠ "" ∧ strip e = e) (h ++ [strip name])) as Hclean'.
  { apply Forall_app. split; [done|]. constructor; [|constructor].
    split; [done|apply strip_idem]. }
  destruct (20 <? _) eqn:Hover.
  - apply Z.ltb_lt in Hover. rewrite (slice_from_last _ 20) by lia.
    rewrite length_app in *. simpl in *.
    split; [exact (sublist_NoDup _ _ Hnd' (sublist_drop _ _))|].
    split; [rewrite length_drop, ?length_app; simpl; lia|].
    split; [by apply Forall_drop|].
    intros _. rewrite drop_app_le by lia. apply elem_of_app. right.
    by apply list_elem_of_singleton.
  - apply Z.ltb_ge in Hover. rewrite length_app in *. simpl in *.
    split; [done|]. split; [rewrite ?length_app; simpl; lia|]. split; [done|].
    intros _. apply elem_of_app. right. by apply list_elem_of_singleton.
Qed.

(** The process history keeps its shape under any sequence of
    [add_to_process_history] calls: no name twice, at most twenty names,
    no empty name and no name with a blank at either end; and a name that
    is not blank is in the history right after it was added. *)
Theorem process_history_invariant (names : list string) (h : list string) :
  NoDup h → (length h ≤ 20)%nat → Forall (fun e => e ≠ "" ∧ strip e = e) h →
  let h' := fold_left (fun h name => fst (Gui.add_to_process_history name h)) names h in
  NoDup h' ∧ (length h' ≤ 20)%nat ∧ Forall (fun e => e ≠ "" ∧ strip e = e) h' ∧
  (∀ name, strip name ≠ "" → strip name ∈ fst (Gui.add_to_process_history name h')).
Proof.
  revert h. induction names as [|name names IH]; intros h Hnd Hlen Hclean; simpl.
  - split; [done|]. split; [done|]. split; [done|].
    intros name. by apply add_to_process_history_step.
  - destruct (add_to_process_history_step name h Hnd Hlen Hclean) as (H1 & H2 & H3 & _).
    by apply IH.
Qed.

Lemma process_history_invariant_witness :
  let names := [" powerpnt "; "wps.exe"; ""; "powerpnt"; "  "; "WINWORD.EXE"] in
  NoDup ([] : list string) ∧ (length ([] : list string) ≤ 20)%nat ∧
  fold_left (fun h name => fst (Gui.add_to_process_history name h)) names []
  = ["powerpnt"; "wps.exe"; "WINWORD.EXE"] ∧
  NoDup (fold_left (fun h name => fst (Gui.add_to_process_history name h)) names []).
Proof.
  intros names.
  assert (NoDup ([] : list string)) as Hnd by constructor.
  assert (length ([] : list string) ≤ 20)%nat as Hlen by (simpl; lia).
  assert (Forall (fun e => e ≠ "" ∧ strip e = e) ([] : list string)) as Hclean
    by constructor.
  split; [exact Hnd|]. split; [exact Hlen|]. split; [vm_compute; reflexivity|].
  exact (proj1 (process_history_invariant names [] Hnd Hlen Hclean)).
Defined.

(** ** The list of save times *)





(** ** The next save time *)

Lemma find_first_sorted (p : string → bool) (l : list string) (t : string) :
  StronglySorted String.le l →
  List.find p l = Some t →
  t ∈ l ∧ p t = true ∧ ∀ t', t' ∈ l → p t' = true → String.le t t'.
Proof.
  intros Hs. induction Hs as [|x l Hs IH Hall]; simpl; [done|].
  destruct (p x) eqn:Hp.
  - intros [= <-]. split; [by left|]. split; [done|].
    intros t' Hin _. apply elem_of_cons in Hin as [-> | Hin]; [done|].
    rewrite Forall_forall in Hall. by apply Hall.
  - intros Hf. destruct (IH Hf) as (Hin & Hpt & Hmin).
    split; [by right|]. split; [done|].
    intros t' Hin' Hp'. apply elem_of_cons in Hin' as [-> | Hin']; [congruence|].
    by apply Hmin.
Qed.

Lemma find_none_all (p : string → bool) (l : list string) :
  List.find p l = None → ∀ t, t ∈ l → p t = false.
Proof.
  intros Hf t Hin. apply list_elem_of_In in Hin. exact (find_none p l Hf t Hin).
Qed.

(** With save times set, the next save time is one of them: the earliest
    that is later than the current minute, today; when none is later, the
    earliest of all, tomorrow.  The hour and the minute are read from its
    two parts around the colon, and a time that does not read as an hour
    below 24 and a minute below 60 raises [ValueError]. *)
Theorem next_save_time_is_earliest
    (int : string → option Z) (save_times : list string) (current_time_str : string) :
  save_times ≠ [] →
  ∃ next_time days,
    SmartBoardApp.next_time_of save_times current_time_str = Some (next_time, days) ∧
    next_time ∈ save_times ∧
    ((days = 0 ∧ String.ltb current_time_str next_time = true ∧
      ∀ t, t ∈ save_times → String.ltb current_time_str t = true → String.le next_time t) ∨
     (days = 1 ∧
      (∀ t, t ∈ save_times → String.ltb current_time_str t = false) ∧
      ∀ t, t ∈ save_times → String.le next_time t)) ∧
    SmartBoardApp.calculate_next_save_time int save_times current_time_str =
      match map int (str_split ":" next_time) with
      | [Some hour; Some minute] =>
          if (0 <=? hour) && (hour <? 24) && (0 <=? minute) && (minute <? 60)
          then SmartBoardApp.NextSave days hour minute
          else SmartBoardApp.RaisesValueError
      | _ => SmartBoardApp.RaisesValueError
      end.
Proof.
  intros Hne.
  assert (nonempty save_times = true) as Hnonempty by (by destruct save_times).
  unfold SmartBoardApp.calculate_next_save_time, SmartBoardApp.next_time_of.
  rewrite Hnonempty.
  pose proof (StronglySorted_merge_sort String.le save_times) as Hs.
  pose proof (merge_sort_Permutation String.le save_times) as Hperm.
  destruct (List.find _ (merge_sort String.le save_times)) as [t|] eqn:Hfind.
  - destruct (find_first_sorted _ _ _ Hs Hfind) as (Hin & Hlt & Hmin).
    exists t, 0. split; [done|]. split; [by rewrite <- Hperm|]. split; [|done].
    left. split; [done|]. split; [done|].
    intros t' Hin'. apply Hmin. by rewrite Hperm.
  - pose proof (find_none_all _ _ Hfind) as Hnone.
    destruct (merge_sort String.le save_times) as [|t rest] eqn:Hsorted.
    { apply Permutation_nil_l in Hperm. done. }
    exists t, 1. split; [done|].
    split; [rewrite <- Hperm; by left|]. split; [|done].
    right. split; [done|]. split.
    + intros t' Hin'. apply Hnone. by rewrite Hperm.
    + intros t' Hin'. rewrite <- Hperm in Hin'.
      apply StronglySorted_inv in Hs as [_ Hall].
      apply elem_of_cons in Hin' as [-> | Hin']; [done|].
      rewrite Forall_forall in Hall. by apply Hall.
Qed.

Lemma next_save_time_is_earliest_witness :
  let save_times := ["18:00"; "09:00"; "15:00"; "12:00"] in
  save_times ≠ [] ∧
  SmartBoardApp.next_time_of save_times "12:00" = Some ("15:00", 0) ∧
  SmartBoardApp.next_time_of save_times "18:00" = Some ("09:00", 1) ∧
  ∃ next_time days,
    SmartBoardApp.next_time_of save_times "12:00" = Some (next_time, days) ∧
    next_time ∈ save_times.
Proof.
  intros save_times.
  assert (save_times ≠ []) as Hne by discriminate.
  split; [exact Hne|]. split; [vm_compute; reflexivity|].
  split; [vm_compute; reflexivity|].
  destruct (next_save_time_is_earliest (fun _ => None) save_times "12:00" Hne)
    as (next_time & days & Hnext & Hin & _).
  exists next_time, days. split; [exact Hnext|exact Hin].
Defined.

(** ** Captures counted *)

(** While monitoring, a capture whose bytes were seen since the last
    flush is counted although it is not stored: the buffer manager is left
    as it was, and the capture count goes up by one and is shown. *)
Theorem capture_count_counts_duplicates
    (w : env) (data : list Byte.byte) (self : SmartBoardApp.t) :
  SmartBoardApp.is_monitoring self = true →
  data ≠ [] →
  Md5.hexdigest data ∈ image_hashes (SmartBoardApp.buffer_manager self) →
  let r := SmartBoardApp.handle_capture w (inr data) self in
  snd r = Returned ∧
  SmartBoardApp.buffer_manager (fst (fst r)) = SmartBoardApp.buffer_manager self ∧
  SmartBoardApp.capture_count (fst (fst r)) = SmartBoardApp.capture_count self + 1 ∧
  SmartBoardApp.UpdateCaptureCount (SmartBoardApp.capture_count self + 1) ∈ snd (fst r).
Proof.
  intros Hmon Hdata Hseen. unfold SmartBoardApp.handle_capture. rewrite Hmon. simpl.
  assert (nonempty data = true) as -> by (by destruct data).
  pose proof (add_to_buffer_cases w (Bytes data) true (SmartBoardApp.buffer_manager self))
    as Hcases.
  simpl in Hcases. rewrite is_duplicate_bytes in Hcases.
  rewrite bool_decide_eq_true_2 in Hcases by done.
  destruct Hcases as [Hsame Hret].
  destruct (add_to_buffer w (Bytes data) true (SmartBoardApp.buffer_manager self))
    as [[bm t_add] out].
  simpl in *. subst bm out. simpl.
  split; [done|]. split; [done|]. split; [done|].
  apply elem_of_app. right. by left.
Qed.

Lemma capture_count_counts_duplicates_witness :
  let seen := set_image_hashes {[ Md5.hexdigest (list_byte_of_string "slide 1") ]}
                (new_BufferManager true "D:\board") in
  let self := SmartBoardApp.Make true 7 seen in
  SmartBoardApp.is_monitoring self = true ∧
  list_byte_of_string "slide 1" ≠ [] ∧
  SmartBoardApp.capture_count
    (fst (fst (SmartBoardApp.handle_capture Example_env.calm
                 (inr (list_byte_of_string "slide 1")) self))) = 8 ∧
  ram_buffer (SmartBoardApp.buffer_manager
    (fst (fst (SmartBoardApp.handle_capture Example_env.calm
                 (inr (list_byte_of_string "slide 1")) self)))) = ram_buffer seen.
Proof.
  intros seen self.
  assert (SmartBoardApp.is_monitoring self = true) as Hmon by reflexivity.
  assert (list_byte_of_string "slide 1" ≠ []) as Hdata by discriminate.
  assert (Md5.hexdigest (list_byte_of_string "slide 1")
          ∈ image_hashes (SmartBoardApp.buffer_manager self)) as Hseen
    by (simpl; set_solver).
  destruct (capture_count_counts_duplicates Example_env.calm
              (list_byte_of_string "slide 1") self Hmon Hdata Hseen)
    as (_ & Hbm & Hcount & _).
  split; [exact Hmon|]. split; [exact Hdata|].
  split; [exact Hcount|]. exact (f_equal ram_buffer Hbm).
Defined.


(** ** Screenshots written to a file *)

(** [save_to_file] reports success whenever nothing raised, also when Qt
    reports that the image was not written: it returns [True] exactly when
    neither [os.makedirs] nor [pixmap.save] raised, whatever [pixmap.save]
    returned; and the directory it makes is the parent of [filepath], while
    the file is written below [filepath] itself. *)
Theorem save_to_file_ignores_failed_write (w : env) (filepath : string) :
  let r := save_to_file w filepath in
  let full_path := join w filepath (timestamp_file_name w) in
  (snd r = true ↔
   makedirs w (dirname w filepath) = None ∧ ∃ ok, pixmap_save w full_path = SaveReturns ok) ∧
  (snd r = true →
   fst (fst r) = [Makedirs (dirname w filepath); PixmapSave full_path]) ∧
  (snd r = false ↔ ∃ e, snd (fst r) = Some e).
Proof.
  unfold save_to_file, os_makedirs, QPixmap_save, bind, emit, ret, raise. cbv zeta.
  destruct (makedirs w (dirname w filepath)) as [e|]; simpl.
  { split; [split; [done|intros [? _]; done]|]. split; [done|]. split; [by eexists|done]. }
  destruct (pixmap_save w _) as [ok|e]; simpl.
  - split; [split; [by eauto|done]|]. split; [done|]. split; [done|]. by intros [? ?].
  - split; [split; [done|intros [_ [? ?]]; done]|]. split; [done|].
    split; [by eexists|done].
Qed.
